(** * SophT-Simulator: Cosserat-rod flow interaction and the flow-past-sphere driver

    A shallow embedding of
    - [sopht_simulator/immersed_body/cosserat_rod/cosserat_rod_flow_interaction.py]
    - [examples/3d_examples/FlowPastSphereCase/flow_past_sphere_case.py]
    and the properties of the coupling engine stated about them.

    Python objects live in a store indexed by references; numpy arrays are
    store objects too, so that in-place writes and aliasing are visible.
    Array elements are IEEE-754 binary floats ([spec_float]). *)

From Stdlib Require Import ZArith QArith Qcanon Lia.
From Stdlib Require Import Floats.SpecFloat.
From stdpp Require Import gmap strings list fin_maps relations.

Open Scope Z_scope.

(** ** numpy arrays of rank two *)

Module Numpy.

Inductive dtype := float32 | float64.

Definition dtype_eqb (a b : dtype) : bool :=
  match a, b with
  | float32, float32 | float64, float64 => true
  | _, _ => false
  end.

Definition prec (d : dtype) : Z := match d with float32 => 24 | float64 => 53 end.
Definition emax (d : dtype) : Z := match d with float32 => 128 | float64 => 1024 end.

Definition f_add (d : dtype) : spec_float -> spec_float -> spec_float :=
  SFadd (prec d) (emax d).
Definition f_mul (d : dtype) : spec_float -> spec_float -> spec_float :=
  SFmul (prec d) (emax d).

(** Rounding of a value into the format [d] (round to nearest, ties to even). *)
Definition round_to (d : dtype) (x : spec_float) : spec_float :=
  match x with
  | S754_finite s m e => binary_round (prec d) (emax d) s m e
  | _ => x
  end.

(** [astype]: a conversion between equal dtypes copies the value. *)
Definition astype (src dst : dtype) (x : spec_float) : spec_float :=
  if dtype_eqb src dst then x else round_to dst x.

(** [np.result_type] on the two float dtypes. *)
Definition promote (a b : dtype) : dtype :=
  match a, b with
  | float32, float32 => float32
  | _, _ => float64
  end.

Definition zero : spec_float := S754_zero false.
(** The Python literal [0.5]. *)
Definition half : spec_float := S754_finite false 4503599627370496 (-53).

Record ndarray := mk_ndarray {
  arr_dtype : dtype;
  arr_shape : nat * nat;
  arr_data : list (list spec_float)   (* one list per index of axis 0 *)
}.

Definition arr_get (a : ndarray) (i j : nat) : option spec_float :=
  row ← arr_data a !! i; row !! j.

(** The data agree with the shape. *)
Definition well_shaped (a : ndarray) : bool :=
  (length (arr_data a) =? fst (arr_shape a))%nat &&
  forallb (λ row : list spec_float, (length row =? snd (arr_shape a))%nat) (arr_data a).

(** The limit numpy puts on the size of an array: the number of bytes,
    the item size multiplied by every dimension that is not zero, must fit
    the signed 64-bit index type; no dimension can then exceed it either. *)
Definition max_intp : Z := 2 ^ 63 - 1.

Definition itemsize (d : dtype) : Z := match d with float32 => 4 | float64 => 8 end.

Definition within_limits (d : dtype) (shape : Z * Z) : bool :=
  let nonzero (x : Z) := if x =? 0 then 1 else x in
  itemsize d * nonzero (fst shape) * nonzero (snd shape) <=? max_intp.

(** An array that numpy can hold has a shape within that limit. *)
Definition representable (a : ndarray) : bool :=
  within_limits (arr_dtype a) (Z.of_nat (fst (arr_shape a)), Z.of_nat (snd (arr_shape a))).

(** [np.zeros(shape, dtype)]; [None] where numpy raises ValueError: for a
    negative dimension and for a shape beyond the limit. Without a dtype
    argument numpy allocates float64. Memory is taken to suffice for an
    array within the limit. *)
Definition zeros (shape : Z * Z) (dt : option dtype) : option ndarray :=
  let '(r, c) := shape in
  if (r <? 0) || (c <? 0) then None
  else if negb (within_limits (default float64 dt) (r, c)) then None
  else Some {| arr_dtype := default float64 dt;
               arr_shape := (Z.to_nat r, Z.to_nat c);
               arr_data := replicate (Z.to_nat r) (replicate (Z.to_nat c) zero) |}.

(** Python's normalisation of a slice bound against a length (step 1). *)
Definition slice_bound (len : nat) (i : Z) : nat :=
  Z.to_nat (if i <? 0 then Z.max (i + Z.of_nat len) 0 else Z.min i (Z.of_nat len)).

Definition slice_list {A} (start stop : option Z) (l : list A) : list A :=
  let lo := from_option (slice_bound (length l)) 0%nat start in
  let hi := from_option (slice_bound (length l)) (length l) stop in
  take (hi - lo) (drop lo l).

(** [a[..., start:stop]]: a slice of the last axis. *)
Definition getitem_last_axis (start stop : option Z) (a : ndarray) : ndarray :=
  let c := snd (arr_shape a) in
  let lo := from_option (slice_bound c) 0%nat start in
  let hi := from_option (slice_bound c) c stop in
  {| arr_dtype := arr_dtype a;
     arr_shape := (fst (arr_shape a), (hi - lo)%nat);
     arr_data := slice_list start stop <$> arr_data a |}.

(** Broadcasting of one dimension against another. *)
Definition broadcast_dim (a b : nat) : option nat :=
  if (a =? b)%nat then Some a
  else if (a =? 1)%nat then Some b
  else if (b =? 1)%nat then Some a
  else None.

(** Stretch an axis of length one to length [n]. *)
Definition stretch {A} (n : nat) (l : list A) : list A :=
  if (length l =? n)%nat then l
  else match l with
       | [x] => replicate n x
       | _ => l
       end.

Definition can_broadcast_to (shape : nat * nat) (a : ndarray) : bool :=
  (((fst (arr_shape a) =? fst shape)%nat) || ((fst (arr_shape a) =? 1)%nat)) &&
  (((snd (arr_shape a) =? snd shape)%nat) || ((snd (arr_shape a) =? 1)%nat)).

Definition broadcast_data (shape : nat * nat) (a : ndarray) : list (list spec_float) :=
  stretch (fst shape) (stretch (snd shape) <$> arr_data a).

(** [x + y] on arrays; [None] when the shapes do not broadcast (ValueError). *)
Definition add (x y : ndarray) : option ndarray :=
  r ← broadcast_dim (fst (arr_shape x)) (fst (arr_shape y));
  c ← broadcast_dim (snd (arr_shape x)) (snd (arr_shape y));
  let d := promote (arr_dtype x) (arr_dtype y) in
  Some {| arr_dtype := d;
          arr_shape := (r, c);
          arr_data :=
            zip_with (zip_with (λ u v, f_add d (astype (arr_dtype x) d u)
                                                (astype (arr_dtype y) d v)))
                     (broadcast_data (r, c) x) (broadcast_data (r, c) y) |}.

Definition map2d {A B} (f : A -> B) (rows : list (list A)) : list (list B) :=
  (λ row : list A, f <$> row) <$> rows.

(** [s * a] for a Python float [s]: the scalar takes the array's dtype. *)
Definition rmul_scalar (s : spec_float) (a : ndarray) : ndarray :=
  let d := arr_dtype a in
  {| arr_dtype := d;
     arr_shape := arr_shape a;
     arr_data := map2d (f_mul d (astype float64 d s)) (arr_data a) |}.

(** [target[...] = value]: the new contents of [target]; [None] when [value]
    does not broadcast to the shape of [target] (ValueError). The dtype and
    the shape of [target] never change. *)
Definition setitem_ellipsis (target value : ndarray) : option ndarray :=
  if can_broadcast_to (arr_shape target) value
  then Some {| arr_dtype := arr_dtype target;
               arr_shape := arr_shape target;
               arr_data := map2d (astype (arr_dtype value) (arr_dtype target))
                                   (broadcast_data (arr_shape target) value) |}
  else None.

End Numpy.

(** ** Python objects, the store and exceptions *)

Module Python.

(** A reference: the identity of an object. *)
Definition loc := nat.

Inductive value :=
| VNone
| VBool (b : bool)
| VInt (z : Z)
| VFloat (x : spec_float)
| VDtype (d : Numpy.dtype)
| VRef (l : loc).

(** An object of the store: a numpy array, or an instance with its
    attribute dictionary. *)
Inductive obj :=
| ONdarray (a : Numpy.ndarray)
| OInstance (attrs : gmap string value).

Abbreviation heap := (gmap loc obj).

Inductive config_fault := SignConvention | KernelWidth.

Inductive exn :=
| AttributeError (name : string)
| TypeError
| ValueError
| ZeroDivisionError
| InvalidGeometryError
| ConfigurationError (why : config_fault).

(** A call returns a value or raises; either way it leaves a store behind
    (an exception rolls nothing back). *)
Inductive outcome (A : Type) :=
| Return (a : A) (h : heap)
| Raise (e : exn) (h : heap).
Arguments Return {A} a h.
Arguments Raise {A} e h.


Definition M (A : Type) : Type := heap -> outcome A.

Definition ret {A} (a : A) : M A := λ h, Return a h.
Definition bind {A B} (m : M A) (k : A -> M B) : M B :=
  λ h, match m h with
       | Return a h' => k a h'
       | Raise e h' => Raise e h'
       end.
Definition raise {A} (e : exn) : M A := λ h, Raise e h.

#[global] Instance M_ret : MRet M := @ret.
#[global] Instance M_bind : MBind M := λ A B k m, bind m k.

(** Lift a partial pure computation, raising [e] where it is undefined. *)
Definition lift {A} (e : exn) (o : option A) : M A :=
  match o with Some a => ret a | None => raise e end.

(** Allocation of a new object at an unused reference. *)
Definition alloc (o : obj) : M loc :=
  λ h, let l := fresh (dom h) in Return l (<[l := o]> h).

(** The instance a value refers to, if it refers to one. *)
Definition instance_of (h : heap) (v : value) : option (loc * gmap string value) :=
  match v with
  | VRef l => match h !! l with
              | Some (OInstance attrs) => Some (l, attrs)
              | _ => None
              end
  | _ => None
  end.

(** [v.name] *)
Definition getattr (v : value) (name : string) : M value :=
  λ h, match instance_of h v with
       | Some (_, attrs) =>
           match attrs !! name with
           | Some w => Return w h
           | None => Raise (AttributeError name) h
           end
       | None => Raise (AttributeError name) h
       end.

(** [v.name = w]: binds or rebinds the attribute in the instance [v]
    refers to. *)
Definition setattr (v : value) (name : string) (w : value) : M unit :=
  λ h, match instance_of h v with
       | Some (l, attrs) => Return tt (<[l := OInstance (<[name := w]> attrs)]> h)
       | None => Raise (AttributeError name) h
       end.

(** [v + 1]: on an int, on a bool (which counts as 0 or 1) and on a
    float; TypeError on anything else the store of the model holds. *)
Definition add_one (v : value) : M value :=
  match v with
  | VInt z => ret (VInt (z + 1))
  | VBool b => ret (VInt (Z.b2z b + 1))
  | VFloat x =>
      ret (VFloat (Numpy.f_add Numpy.float64 x (S754_finite false 4503599627370496 (-52))))
  | _ => raise TypeError
  end.

(** A value used as a dimension of a shape: numpy takes an int, and raises
    TypeError for a bool or a float. *)
Definition as_index (v : value) : M Z :=
  match v with
  | VInt z => ret z
  | _ => raise TypeError
  end.

(** The array a value refers to. *)
Definition as_ndarray (v : value) : M (loc * Numpy.ndarray) :=
  λ h, match v with
       | VRef l => match h !! l with
                   | Some (ONdarray a) => Return (l, a) h
                   | _ => Raise TypeError h
                   end
       | _ => Raise TypeError h
       end.

(** Overwrite the contents of the array object at [l] (its identity stays). *)
Definition store_ndarray (l : loc) (a : Numpy.ndarray) : M unit :=
  λ h, Return tt (<[l := ONdarray a]> h).

(** [np.zeros(shape)] as a statement: a new array object. *)
Definition np_zeros (shape : Z * Z) (dt : option Numpy.dtype) : M loc :=
  a ← lift ValueError (Numpy.zeros shape dt); alloc (ONdarray a).

End Python.

(** ** The Cosserat-rod flow interaction
    [sopht_simulator/immersed_body/cosserat_rod/cosserat_rod_flow_interaction.py] *)

Module CosseratRodFlowInteraction.
Import Python.

(** The arguments of [__init__], with the defaults of the signature noted. *)
Record InitArgs := {
  cosserat_rod : loc;
  eul_grid_forcing_field : loc;
  eul_grid_velocity_field : loc;
  virtual_boundary_stiffness_coeff : spec_float;
  virtual_boundary_damping_coeff : spec_float;
  dx : spec_float;
  grid_dim : Z;
  real_t : Numpy.dtype;                         (* default np.float64 *)
  eul_grid_coord_shift : option spec_float;     (* default None *)
  interp_kernel_width : option Z;               (* default None *)
  enable_eul_grid_forcing_reset : bool;         (* default False *)
  num_threads : value;                          (* default False *)
  start_time : spec_float;                      (* default 0.0 *)
  forcing_grid_kwargs : gmap string value
}.

(** The positional arguments handed to the initialiser of the super class
    [ImmersedBodyFlowInteraction], in the order of the call. *)
Record SuperArgs := {
  sa_eul_grid_forcing_field : loc;
  sa_eul_grid_velocity_field : loc;
  sa_body_flow_forces : loc;
  sa_body_flow_torques : loc;
  sa_forcing_grid : loc;
  sa_virtual_boundary_stiffness_coeff : spec_float;
  sa_virtual_boundary_damping_coeff : spec_float;
  sa_dx : spec_float;
  sa_grid_dim : Z;
  sa_real_t : Numpy.dtype;
  sa_eul_grid_coord_shift : option spec_float;
  sa_interp_kernel_width : option Z;
  sa_enable_eul_grid_forcing_reset : bool;
  sa_num_threads : value;
  sa_start_time : spec_float
}.

(** The classes the constructor calls, defined outside the sources at
    hand: the
    forcing-grid class passed as [forcing_grid_cls], called with
    [grid_dim], [cosserat_rod] and the keyword arguments, and the
    initialiser of the super class, called on [self]. *)
Class ForcingGridClass := {
  forcing_grid_cls : Z -> loc -> gmap string value -> M loc
}.

Class SuperClass := {
  super_init : loc -> SuperArgs -> M unit
}.

(** The argument list of [super().__init__(...)] (lines 47-63): the two
    accumulators and the forcing grid made by the constructor, the rest
    passed on as received. *)
Definition super_args (a : InitArgs) (body_flow_forces body_flow_torques forcing_grid : loc)
  : SuperArgs :=
  {| sa_eul_grid_forcing_field := eul_grid_forcing_field a;
     sa_eul_grid_velocity_field := eul_grid_velocity_field a;
     sa_body_flow_forces := body_flow_forces;
     sa_body_flow_torques := body_flow_torques;
     sa_forcing_grid := forcing_grid;
     sa_virtual_boundary_stiffness_coeff := virtual_boundary_stiffness_coeff a;
     sa_virtual_boundary_damping_coeff := virtual_boundary_damping_coeff a;
     sa_dx := dx a;
     sa_grid_dim := grid_dim a;
     sa_real_t := real_t a;
     sa_eul_grid_coord_shift := eul_grid_coord_shift a;
     sa_interp_kernel_width := interp_kernel_width a;
     sa_enable_eul_grid_forcing_reset := enable_eul_grid_forcing_reset a;
     sa_num_threads := num_threads a;
     sa_start_time := start_time a |}.

(** [update_rod_element_position(self)]. The right-hand side is evaluated
    first (left operand, then right operand), then the target. *)
Definition update_rod_element_position (self : loc) : M unit :=
  rod ← getattr (VRef self) "cosserat_rod";
  pc ← getattr rod "position_collection";
  '(_, a) ← as_ndarray pc;
  let upper := Numpy.getitem_last_axis (Some 1) None a in
  rod ← getattr (VRef self) "cosserat_rod";
  pc ← getattr rod "position_collection";
  '(_, b) ← as_ndarray pc;
  let lower := Numpy.getitem_last_axis None (Some (-1)) b in
  s ← lift ValueError (Numpy.add upper lower);
  let rhs := Numpy.rmul_scalar Numpy.half s in
  rod ← getattr (VRef self) "cosserat_rod";
  ep ← getattr rod "element_position";
  '(l, t) ← as_ndarray ep;
  t' ← lift ValueError (Numpy.setitem_ellipsis t rhs);
  store_ndarray l t'.

Section Init.
Context `{FG : ForcingGridClass}.

(** Lines 31-44 of [__init__]: everything before the call of the super
    class initialiser; the result is the argument list of that call. *)
Definition init_body (self : loc) (a : InitArgs) : M SuperArgs :=
  let rod := VRef (cosserat_rod a) in
  n1 ← (getattr rod "n_elems" ≫= add_one) ≫= as_index;
  body_flow_forces ← np_zeros (3, n1) None;
  n ← getattr rod "n_elems" ≫= as_index;
  body_flow_torques ← np_zeros (3, n) None;
  forcing_grid ← forcing_grid_cls (grid_dim a) (cosserat_rod a) (forcing_grid_kwargs a);
  setattr (VRef self) "cosserat_rod" rod;;
  n ← getattr rod "n_elems" ≫= as_index;
  ep ← np_zeros (3, n) None;
  r ← getattr (VRef self) "cosserat_rod";
  setattr r "element_position" (VRef ep);;
  update_rod_element_position self;;
  mret (super_args a body_flow_forces body_flow_torques forcing_grid).

Context `{SC : SuperClass}.

(** [__init__(self, ...)]: lines 31-44, then [super().__init__(...)]. *)
Definition __init__ (self : loc) (a : InitArgs) : M unit :=
  sa ← init_body self a; super_init self sa.

(** [CosseratRodFlowInteraction(...)]: a new instance, initialised. *)
Definition construct (a : InitArgs) : M loc :=
  self ← alloc (OInstance ∅); __init__ self a;; mret self.

End Init.

End CosseratRodFlowInteraction.

(** ** The parts of the coupling engine described by the specification only *)

Module ImmersedBody.
Import Python CosseratRodFlowInteraction.

(** The sign convention of the coupling coefficients: [x <= 0]. *)
Definition nonpositive (x : spec_float) : bool := SFleb x Numpy.zero.

Definition sign_convention (stiffness damping : spec_float) : bool :=
  nonpositive stiffness && nonpositive damping.

Definition option_value {A} (f : A -> value) (o : option A) : value :=
  from_option f VNone o.

Section FlowInteraction.
(** The compatibility of a kernel width with the grid spacing; the
    specification names the check and gives no criterion for it. *)
Variable kernel_width_compatible : option Z -> spec_float -> bool.

(** Modelled from the spec: the initialiser of the coupling engine
    [ImmersedBodyFlowInteraction], which is not part of the sources at hand.
    Following sections 3 and 7 of the specification it validates the
    configuration at construction (both coefficients non-positive, kernel
    width compatible with the grid spacing), raising [ConfigurationError],
    and then fixes the configuration and the references it was given as
    attributes of the engine. *)
Definition ImmersedBodyFlowInteraction_init (self : loc) (sa : SuperArgs) : M unit :=
  if negb (sign_convention (sa_virtual_boundary_stiffness_coeff sa)
                           (sa_virtual_boundary_damping_coeff sa))
  then raise (ConfigurationError SignConvention)
  else if negb (kernel_width_compatible (sa_interp_kernel_width sa) (sa_dx sa))
  then raise (ConfigurationError KernelWidth)
  else
    setattr (VRef self) "eul_grid_forcing_field" (VRef (sa_eul_grid_forcing_field sa));;
    setattr (VRef self) "eul_grid_velocity_field" (VRef (sa_eul_grid_velocity_field sa));;
    setattr (VRef self) "body_flow_forces" (VRef (sa_body_flow_forces sa));;
    setattr (VRef self) "body_flow_torques" (VRef (sa_body_flow_torques sa));;
    setattr (VRef self) "forcing_grid" (VRef (sa_forcing_grid sa));;
    setattr (VRef self) "virtual_boundary_stiffness_coeff"
            (VFloat (sa_virtual_boundary_stiffness_coeff sa));;
    setattr (VRef self) "virtual_boundary_damping_coeff"
            (VFloat (sa_virtual_boundary_damping_coeff sa));;
    setattr (VRef self) "dx" (VFloat (sa_dx sa));;
    setattr (VRef self) "grid_dim" (VInt (sa_grid_dim sa));;
    setattr (VRef self) "real_t" (VDtype (sa_real_t sa));;
    setattr (VRef self) "eul_grid_coord_shift" (option_value VFloat (sa_eul_grid_coord_shift sa));;
    setattr (VRef self) "interp_kernel_width" (option_value VInt (sa_interp_kernel_width sa));;
    setattr (VRef self) "enable_eul_grid_forcing_reset"
            (VBool (sa_enable_eul_grid_forcing_reset sa));;
    setattr (VRef self) "num_threads" (sa_num_threads sa);;
    setattr (VRef self) "time" (VFloat (sa_start_time sa)).

End FlowInteraction.

(** Modelled from the spec: the flexible-rod variant of the forcing grid
    (section 4.1), which is not part of the sources at hand: one marker per
    element, marker arrays of shape [(grid_dim, num_markers)], a
    back-reference to the rod, and an [InvalidGeometryError] for a rod
    without elements or a grid dimension other than 2 or 3. *)
Definition FlexibleRodGrid (grid_dim : Z) (rod : loc) (kwargs : gmap string value) : M loc :=
  n ← getattr (VRef rod) "n_elems" ≫= as_index;
  if (n <=? 0) || negb ((grid_dim =? 2) || (grid_dim =? 3))
  then raise InvalidGeometryError
  else
    position_field ← np_zeros (grid_dim, n) None;
    velocity_field ← np_zeros (grid_dim, n) None;
    alloc (OInstance (<["cosserat_rod" := VRef rod]>
                     (<["grid_dim" := VInt grid_dim]>
                     (<["num_lag_nodes" := VInt n]>
                     (<["position_field" := VRef position_field]>
                     (<["velocity_field" := VRef velocity_field]> ∅)))))).

(** The two classes above as the collaborators of the constructor, and the
    arguments they accept. *)
Definition rod_grid : ForcingGridClass := {| forcing_grid_cls := FlexibleRodGrid |}.

Definition rod_grid_accepts (grid_dim n : Z) : Prop :=
  1 <= n ∧ (grid_dim = 2 ∨ grid_dim = 3) ∧
  Numpy.within_limits Numpy.float64 (grid_dim, n) = true.

Definition engine_base (kernel_width_compatible : option Z -> spec_float -> bool)
  : SuperClass :=
  {| super_init := ImmersedBodyFlowInteraction_init kernel_width_compatible |}.

Definition engine_base_accepts (kernel_width_compatible : option Z -> spec_float -> bool)
    (sa : SuperArgs) : Prop :=
  sign_convention (sa_virtual_boundary_stiffness_coeff sa)
                  (sa_virtual_boundary_damping_coeff sa) = true ∧
  kernel_width_compatible (sa_interp_kernel_width sa) (sa_dx sa) = true.

(** Modelled from the spec: the feedback law of section 4.3, step 3, which
    is part of the coupling engine and not of the sources at hand, over
    exact rationals and per component: the forcing of a marker is
    [stiffness * displacement_error
     + damping * (marker_velocity - interpolated_velocity)],
    and a step of [dt] advances its displacement error by
    [(marker_velocity - interpolated_velocity) * dt]. *)
Definition vec := list Qc.

Definition vzip (f : Qc -> Qc -> Qc) (u v : vec) : vec := zip_with f u v.

Definition marker_forcing (stiffness damping : Qc) (err v u : vec) : vec :=
  vzip (λ e d, stiffness * e + damping * d)%Qc err (vzip Qcminus v u).

Definition advance_displacement_error (dt : Qc) (err v u : vec) : vec :=
  vzip (λ e d, e + d * dt)%Qc err (vzip Qcminus v u).

(** The displacement error the engine keeps for a marker, and the two
    velocities of the current step. *)
Record marker := {
  displacement_error : vec;
  marker_velocity : vec;
  interpolated_velocity : vec
}.

(** The forcing field: the law on every marker. *)
Definition compute_forcing (stiffness damping : Qc) (ms : list marker) : list vec :=
  (λ m, marker_forcing stiffness damping (displacement_error m)
          (marker_velocity m) (interpolated_velocity m)) <$> ms.

(** The integrator: every displacement error advanced by [dt]. *)
Definition advance (dt : Qc) (ms : list marker) : list marker :=
  (λ m, {| displacement_error :=
             advance_displacement_error dt (displacement_error m)
               (marker_velocity m) (interpolated_velocity m);
           marker_velocity := marker_velocity m;
           interpolated_velocity := interpolated_velocity m |}) <$> ms.

End ImmersedBody.

(** ** The driver [examples/3d_examples/FlowPastSphereCase/flow_past_sphere_case.py] *)

Module FlowPastSphereCase.

(** The arithmetic of the driver mixes Python floats with numpy scalars of
    the configured precision; it is taken as an interface, as are [np.pi],
    [np.sum] and [np.fabs]. *)
Class Numeric (real : Type) := {
  of_Z : Z -> real;                 (* an int used as a float *)
  literal : Q -> real;              (* a decimal literal *)
  add : real -> real -> real;
  mul : real -> real -> real;
  div : real -> real -> real;
  pow : real -> Z -> real;          (* [x ** n] *)
  ltb : real -> real -> bool;
  eqb : real -> real -> bool;
  np_pi : real;
  np_sum : list real -> real;
  np_fabs : real -> real
}.

(** The flow simulator, the sphere and the flow interactor, with the state
    they keep between calls gathered in [world]. *)
Class Collaborators (real world : Type) := {
  UnboundedFlowSimulator3D :
    Z * Z * Z -> real -> real -> string -> Z -> world;
  x_range_of : world -> real;
  y_range_of : world -> real;
  z_range_of : world -> real;
  dx_of : world -> real;
  Sphere : list real -> real -> real -> world -> world;
  RigidBodyFlowInteraction : real -> real -> real -> Z -> string -> Z -> world -> world;
  (* sphere_flow_interactor.lag_grid_forcing_field[axis, ...] *)
  lag_grid_forcing_field : world -> nat -> list real;
  compute_stable_timestep : real -> world -> real * world;
  interactor_time_step : real -> world -> world;        (* time_step(dt=dt) *)
  interactor_call : world -> world;                     (* sphere_flow_interactor() *)
  flow_sim_time_step : real -> list real -> world -> world
}.

Section Driver.
Context {real world : Type} `{Num : Numeric real} `{Col : Collaborators real world}.

(** The calls the driver makes on its collaborators and on the outside. *)
Inductive event :=
| EvIoSave (t : real)
| EvSphereIoSave (t : real)
| EvSaveFigure (t : real)
| EvPrint (t drag_coeff : real)
| EvComputeStableTimestep (dt : real)      (* with the value returned *)
| EvInteractorTimeStep (dt : real)
| EvInteractorCall
| EvFlowSimTimeStep (dt : real).

Definition is_interactor_call (e : event) : bool :=
  match e with
  | EvInteractorTimeStep _ | EvInteractorCall => true
  | _ => false
  end.

(** The calls of one iteration on the flow interactor: [time_step(dt)]
    with the time step just computed, then the call of the interactor. *)
Definition couples_once (evs : list event) : Prop :=
  ∃ dt, In (EvComputeStableTimestep dt) evs ∧
        List.filter is_interactor_call evs = [EvInteractorTimeStep dt; EvInteractorCall].

Record params := {
  grid_size : Z * Z * Z;                      (* in order Z, Y, X *)
  num_forcing_points_along_equator : Z;
  reynolds : real;                            (* default 100.0 *)
  coupling_stiffness : real;                  (* default -6e5 *)
  coupling_damping : real;                    (* default -3.5e2 *)
  num_threads : Z;                            (* default 4 *)
  precision : string;                         (* default "single" *)
  save_data : bool                            (* default False *)
}.

(** Python's [/] on floats raises on a zero divisor. *)
Definition py_div (x y : real) : option real :=
  if eqb y (literal 0) then None else Some (div x y).

Definition far_field_velocity : real := literal 1.
Definition rho_f : real := literal 1.
Definition x_range : real := literal 1.

Definition sphere_diameter (p : params) : option real :=
  let '(grid_size_z, grid_size_y, grid_size_x) := grid_size p in
  q ← py_div (mul (literal 0.4) (of_Z (Z.min grid_size_z grid_size_y))) (of_Z grid_size_x);
  Some (mul q x_range).

Definition sphere_projected_area (d : real) : real :=
  mul (mul (literal 0.25) np_pi) (pow d 2).

Definition drag_force_scale (d : real) : real :=
  mul (mul (mul (literal 0.5) rho_f) (pow far_field_velocity 2)) (sphere_projected_area d).

(** The values fixed before the loop. *)
Record consts := {
  c_save_data : bool;
  c_drag_force_scale : real;
  c_velocity_free_stream : list real;
  c_t_end : real;
  c_foto_timer_limit : real
}.

(** The variables of the loop, with the calls made so far, one list per
    iteration. *)
Record state := {
  t : real;
  foto_timer : real;
  time : list real;
  drag_coeffs : list real;
  w : world;
  trace : list (list event)
}.

Definition snapshot_due (c : consts) (s : state) : bool :=
  ltb (c_foto_timer_limit c) (foto_timer s) || eqb (foto_timer s) (literal 0).

(** The drag coefficient computed from the forcing field of a world. *)
Definition drag_coeff_of (c : consts) (wd : world) : real :=
  let x_axis := 0%nat in
  let drag_force := np_fabs (np_sum (lag_grid_forcing_field wd x_axis)) in
  div drag_force (c_drag_force_scale c).

(** The operations of the driver on its collaborators and on the outside,
    each with the type of what it returns: the attribute
    [sphere_flow_interactor.lag_grid_forcing_field[axis, ...]] read, and the
    calls. *)
Inductive call : Type -> Type :=
| LagGridForcingField (axis : nat) : call (list real)
| IoSave (t : real) : call unit
| SphereIoSave (t : real) : call unit
| SaveAndClearFig (t : real) : call unit
| Print (t drag_coeff : real) : call unit
| ComputeStableTimestep (dt_prefac : real) : call real
| InteractorTimeStep (dt : real) : call unit
| InteractorCall : call unit
| FlowSimTimeStep (dt : real) (free_stream_velocity : list real) : call unit.

(** What an operation returns and does to the collaborators. Saving,
    plotting and printing leave them as they are. *)
Definition perform {A : Type} (k : call A) (wd : world) : A * world :=
  match k in call A return A * world with
  | LagGridForcingField axis => (lag_grid_forcing_field wd axis, wd)
  | IoSave _ | SphereIoSave _ | SaveAndClearFig _ | Print _ _ => (tt, wd)
  | ComputeStableTimestep dt_prefac => compute_stable_timestep dt_prefac wd
  | InteractorTimeStep dt => (tt, interactor_time_step dt wd)
  | InteractorCall => (tt, interactor_call wd)
  | FlowSimTimeStep dt free_stream_velocity =>
      (tt, flow_sim_time_step dt free_stream_velocity wd)
  end.

(** The entry an operation leaves in the record of calls, given what it
    returned; reading an attribute is no call. *)
Definition event_of {A : Type} (k : call A) : A -> list event :=
  match k in call A return A -> list event with
  | LagGridForcingField _ => λ _, []
  | IoSave t => λ _, [EvIoSave t]
  | SphereIoSave t => λ _, [EvSphereIoSave t]
  | SaveAndClearFig t => λ _, [EvSaveFigure t]
  | Print t drag_coeff => λ _, [EvPrint t drag_coeff]
  | ComputeStableTimestep _ => λ dt, [EvComputeStableTimestep dt]
  | InteractorTimeStep dt => λ _, [EvInteractorTimeStep dt]
  | InteractorCall => λ _, [EvInteractorCall]
  | FlowSimTimeStep dt _ => λ _, [EvFlowSimTimeStep dt]
  end.

(** A piece of the driver: the operations it makes, in order, each
    continued with what it returned, and the value it ends with. The
    collaborators are reached through operations only. *)
Inductive prog (A : Type) : Type :=
| Ret (a : A)
| Then {B : Type} (k : call B) (rest : B -> prog A).
Arguments Ret {A} a.
Arguments Then {A B} k rest.

Fixpoint prog_bind {A B : Type} (f : A -> prog B) (p : prog A) : prog B :=
  match p with
  | Ret a => f a
  | Then k rest => Then k (λ r, prog_bind f (rest r))
  end.

#[local] Instance prog_ret : MRet prog := @Ret.
#[local] Instance prog_mbind : MBind prog := @prog_bind.

Definition make {A : Type} (k : call A) : prog A := Then k Ret.

(** Running a piece of the driver: the value it ends with, the
    collaborators as its operations leave them, and the calls made, which
    are those of its operations and in their order. *)
Fixpoint run {A : Type} (p : prog A) (wd : world) : A * world * list event :=
  match p with
  | Ret a => (a, wd, [])
  | Then k rest =>
      let '(r, wd1) := perform k wd in
      let '(a, wd2, evs) := run (rest r) wd1 in
      (a, wd2, event_of k r ++ evs)
  end.

(** The body of [if foto_timer > foto_timer_limit or foto_timer == 0]
    (lines 111-156): the new values of [foto_timer], [time] and
    [drag_coeffs]. *)
Definition snapshot (c : consts) (t : real) (time drag_coeffs : list real)
  : prog (real * list real * list real) :=
  let foto_timer := literal 0 in
  let x_axis := 0%nat in
  forcing ← make (LagGridForcingField x_axis);
  let drag_force := np_fabs (np_sum forcing) in
  let drag_coeff := div drag_force (c_drag_force_scale c) in
  let time := time ++ [t] in
  let drag_coeffs := drag_coeffs ++ [drag_coeff] in
  (if c_save_data c then make (IoSave t);; make (SphereIoSave t) else mret tt);;
  make (SaveAndClearFig t);;
  make (Print t drag_coeff);;
  mret (foto_timer, time, drag_coeffs).

(** The body of [while t < t_end] (lines 109-168) on the local variables
    [t], [foto_timer], [time] and [drag_coeffs]: their new values. *)
Definition iteration (c : consts) (t foto_timer : real) (time drag_coeffs : list real)
  : prog (real * real * list real * list real) :=
  '(foto_timer, time, drag_coeffs) ←
    (if ltb (c_foto_timer_limit c) foto_timer || eqb foto_timer (literal 0)
     then snapshot c t time drag_coeffs
     else mret (foto_timer, time, drag_coeffs));
  dt ← make (ComputeStableTimestep (literal 0.25));
  make (InteractorTimeStep dt);;
  make InteractorCall;;
  make (FlowSimTimeStep dt (c_velocity_free_stream c));;
  let t := add t dt in
  let foto_timer := add foto_timer dt in
  mret (t, foto_timer, time, drag_coeffs).

(** One iteration of the loop from the state [s] at its head: the body
    run on the variables and the collaborators of [s], and the calls it
    made recorded as those of one more iteration. *)
Definition loop_body (c : consts) (s : state) : state :=
  let '(t', foto_timer', time', drag_coeffs', wd, calls) :=
    run (iteration c (t s) (foto_timer s) (time s) (drag_coeffs s)) (w s) in
  {| t := t'; foto_timer := foto_timer'; time := time'; drag_coeffs := drag_coeffs';
     w := wd; trace := trace s ++ [calls] |}.

(** The loop, for at most [fuel] iterations. *)
Fixpoint loop (fuel : nat) (c : consts) (s : state) : state :=
  match fuel with
  | O => s
  | S fuel' => if ltb (t s) (c_t_end c) then loop fuel' c (loop_body c s) else s
  end.

(** The states at the head of the iterations [loop] runs. *)
Fixpoint loop_heads (fuel : nat) (c : consts) (s : state) : list state :=
  match fuel with
  | O => []
  | S fuel' => if ltb (t s) (c_t_end c) then s :: loop_heads fuel' c (loop_body c s) else []
  end.

(** The set-up of the driver up to the loop: the constants and the initial
    state; [None] where a division raises [ZeroDivisionError]. *)
Definition setup (p : params) : option (consts * state) :=
  let dim := 3 in
  d ← sphere_diameter p;
  nu ← py_div (mul far_field_velocity d) (reynolds p);
  let flow_sim :=
    UnboundedFlowSimulator3D (grid_size p) x_range nu (precision p) (num_threads p) in
  let velocity_free_stream := [far_field_velocity; literal 0; literal 0] in
  let X_cm := mul (literal 0.25) (x_range_of flow_sim) in
  let Y_cm := mul (literal 0.5) (y_range_of flow_sim) in
  let Z_cm := mul (literal 0.5) (z_range_of flow_sim) in
  half_d ← py_div d (literal 2);
  let w1 := Sphere [X_cm; Y_cm; Z_cm] half_d (literal 1000) flow_sim in
  let w2 := RigidBodyFlowInteraction (coupling_stiffness p) (coupling_damping p)
              (dx_of w1) dim (precision p) (num_forcing_points_along_equator p) w1 in
  timescale ← py_div d far_field_velocity;
  let t_end := mul (literal 10) timescale in
  foto_timer_limit ← py_div t_end (of_Z 40);
  Some ({| c_save_data := save_data p;
           c_drag_force_scale := drag_force_scale d;
           c_velocity_free_stream := velocity_free_stream;
           c_t_end := t_end;
           c_foto_timer_limit := foto_timer_limit |},
        {| t := literal 0; foto_timer := literal 0; time := []; drag_coeffs := [];
           w := w2; trace := [] |}).

(** [flow_past_sphere_case], with the loop cut after [fuel] iterations:
    the state when the loop is left (or the fuel is spent). What is written
    to [drag_vs_time.csv] are the lists [time] and [drag_coeffs] of it. *)
Definition flow_past_sphere_case (fuel : nat) (p : params) : option state :=
  '(c, s) ← setup p; Some (loop fuel c s).

(** The calls an iteration makes for its diagnostics, and those among them
    that write the fields to a file. *)
Definition is_diagnostic (e : event) : bool :=
  match e with
  | EvIoSave _ | EvSphereIoSave _ | EvSaveFigure _ | EvPrint _ _ => true
  | _ => false
  end.

Definition is_io_save (e : event) : bool :=
  match e with
  | EvIoSave _ | EvSphereIoSave _ => true
  | _ => false
  end.

(** The calls of one iteration as the loop body orders them: diagnostics
    first, which write the fields only where [save_data] is set, then the
    stable time step, the two calls on the flow interactor and the step of
    the flow simulator, all with that time step. *)
Definition coupled_step (save : bool) (evs : list event) : Prop :=
  ∃ diag dt,
    evs = diag ++ [EvComputeStableTimestep dt; EvInteractorTimeStep dt;
                   EvInteractorCall; EvFlowSimTimeStep dt] ∧
    forallb is_diagnostic diag = true ∧
    (save = false -> List.filter is_io_save diag = []).

(** The time steps the flow simulator was advanced by, in order. *)
Definition flow_step_of (e : event) : option real :=
  match e with
  | EvFlowSimTimeStep dt => Some dt
  | _ => None
  end.

Definition flow_steps (tr : list (list event)) : list real :=
  omap flow_step_of (concat tr).

(** [np.c_[a, b]] on two one-dimensional arrays: the rows of the array of
    two columns; [None] when the lengths differ (numpy raises ValueError). *)
Definition np_c_ (a b : list real) : option (list (real * real)) :=
  if (length a =? length b)%nat then Some (zip a b) else None.

(** The array handed to [np.savetxt] for [drag_vs_time.csv] once the loop
    is left (lines 175-180). *)
Definition drag_vs_time (s : state) : option (list (real * real)) :=
  np_c_ (time s) (drag_coeffs s).

(** [simulate_parallelised_flow_past_sphere(num_threads, nx)], the command
    of the script (lines 196-213); [//] is the floor division of ints. The
    arguments it does not pass take the defaults of [flow_past_sphere_case]. *)
Definition simulate_parallelised_flow_past_sphere (fuel : nat) (num_threads nx : Z)
  : option state :=
  let ny := nx `div` 2 in
  let nz := nx `div` 2 in
  let grid_size := (nz, ny, nx) in
  let num_forcing_points_along_equator := 3 * (nx `div` 8) in
  flow_past_sphere_case fuel
    {| grid_size := grid_size;
       num_forcing_points_along_equator := num_forcing_points_along_equator;
       reynolds := literal 100;
       coupling_stiffness := literal (-600000);
       coupling_damping := literal (-350);
       num_threads := num_threads;
       precision := "single";
       save_data := false |}.

End Driver.

End FlowPastSphereCase.

(** ** States of a rod and of the engine attached to it *)

Module RodState.
Import Python CosseratRodFlowInteraction.

(** The array an attribute of the rod of the engine [self] refers to:
    [self.cosserat_rod.<name>], with its reference. *)
Definition rod_array (h : heap) (self : loc) (name : string)
  : option (loc * Numpy.ndarray) :=
  '(_, sattrs) ← instance_of h (VRef self);
  rod ← sattrs !! "cosserat_rod";
  '(_, rattrs) ← instance_of h rod;
  v ← rattrs !! name;
  match v with
  | VRef l => match h !! l with
              | Some (ONdarray a) => Some (l, a)
              | _ => None
              end
  | _ => None
  end.

(** A Cosserat rod of [n] elements as the body integrator keeps it: an
    instance whose [n_elems] is [n] and whose [position_collection] is a
    float64 array with one column per node, of a size numpy can hold as
    every array is. *)
Definition rod_ok (h : heap) (rod : loc) (n : Z) : Prop :=
  ∃ attrs pcl pc,
    h !! rod = Some (OInstance attrs) ∧
    attrs !! "n_elems" = Some (VInt n) ∧
    attrs !! "position_collection" = Some (VRef pcl) ∧
    h !! pcl = Some (ONdarray pc) ∧
    0 <= n ∧
    Numpy.arr_dtype pc = Numpy.float64 ∧
    Numpy.arr_shape pc = (3%nat, (Z.to_nat n + 1)%nat) ∧
    Numpy.well_shaped pc = true ∧
    Numpy.representable pc = true.

(** The state of a constructed engine [self] on the rod [rod]: the rod is
    as above and its [element_position] is the float64 array at [epl], with
    one column per element. *)
Definition engine_inv (self rod : loc) (n : Z) (epl : loc) (h : heap) : Prop :=
  (∃ sattrs, h !! self = Some (OInstance sattrs) ∧
             sattrs !! "cosserat_rod" = Some (VRef rod)) ∧
  rod_ok h rod n ∧
  (∃ rattrs ep,
     h !! rod = Some (OInstance rattrs) ∧
     rattrs !! "element_position" = Some (VRef epl) ∧
     h !! epl = Some (ONdarray ep) ∧
     Numpy.arr_dtype ep = Numpy.float64 ∧
     Numpy.arr_shape ep = (3%nat, Z.to_nat n)).

(** What may happen to the store once the engine is constructed: the
    engine updates the element positions, or the body integrator overwrites
    the node positions in place. *)
Inductive step (self : loc) : heap -> heap -> Prop :=
| step_update h h' :
    update_rod_element_position self h = Return tt h' ->
    step self h h'
| step_move h pcl pc pc' :
    rod_array h self "position_collection" = Some (pcl, pc) ->
    Numpy.arr_dtype pc' = Numpy.arr_dtype pc ->
    Numpy.arr_shape pc' = Numpy.arr_shape pc ->
    Numpy.well_shaped pc' = true ->
    step self h (<[pcl := ONdarray pc']> h).

(** The two slices read by [update_rod_element_position]. *)
Definition upper (a : Numpy.ndarray) : Numpy.ndarray :=
  Numpy.getitem_last_axis (Some 1) None a.
Definition lower (a : Numpy.ndarray) : Numpy.ndarray :=
  Numpy.getitem_last_axis None (Some (-1)) a.

(** The midpoints of adjacent columns, row by row, in float64. *)
Definition midpoint (hi lo : spec_float) : spec_float :=
  Numpy.f_mul Numpy.float64 Numpy.half (Numpy.f_add Numpy.float64 hi lo).

Definition midpoint_rows (rows : list (list spec_float)) : list (list spec_float) :=
  (λ row : list spec_float,
     zip_with midpoint (drop 1 row) (take (length row - 1) row)) <$> rows.

Definition midpoints (pc : Numpy.ndarray) : Numpy.ndarray :=
  {| Numpy.arr_dtype := Numpy.float64;
     Numpy.arr_shape := (fst (Numpy.arr_shape pc), (snd (Numpy.arr_shape pc) - 1)%nat);
     Numpy.arr_data := midpoint_rows (Numpy.arr_data pc) |}.

(** What the collaborators of the constructor are assumed to do. The
    forcing-grid class returns for a rod it accepts and only allocates; the
    initialiser of the super class returns for arguments it accepts, leaves
    every object other than [self] as it is and keeps the attribute
    [cosserat_rod] of [self]. *)
Class ForcingGridOk (FG : ForcingGridClass) (accepts : Z -> Z -> Prop) : Prop :=
  forcing_grid_returns :
    ∀ (h : heap) grid_dim rod kwargs attrs n,
      h !! rod = Some (OInstance attrs) ->
      attrs !! "n_elems" = Some (VInt n) ->
      accepts grid_dim n ->
      ∃ fg h', forcing_grid_cls grid_dim rod kwargs h = Return fg h' ∧ h ⊆ h'.

Class SuperOk (SC : SuperClass) (accepts : SuperArgs -> Prop) : Prop :=
  super_returns :
    ∀ (h : heap) self sa attrs,
      h !! self = Some (OInstance attrs) ->
      accepts sa ->
      ∃ h' attrs',
        super_init self sa h = Return tt h' ∧
        h' !! self = Some (OInstance attrs') ∧
        attrs' !! "cosserat_rod" = attrs !! "cosserat_rod" ∧
        ∀ l o, l ≠ self -> h !! l = Some o -> h' !! l = Some o.

(** The outcome of a construction of [self] whose last step, the
    initialiser of the super class, ends as [o]. *)
Definition finish (self : loc) (o : outcome unit) : outcome loc :=
  match o with
  | Return _ h => Return self h
  | Raise e h => Raise e h
  end.

(** The state [h], with attributes [attrs] of [self], comes from [h0] and
    [attrs0] by binding attributes of [self] other than [cosserat_rod]. *)
Definition self_only (self : loc) (h0 : heap) (attrs0 : gmap string value)
    (h : heap) (attrs : gmap string value) : Prop :=
  h !! self = Some (OInstance attrs) ∧
  attrs !! "cosserat_rod" = attrs0 !! "cosserat_rod" ∧
  ∀ l o, l ≠ self -> h0 !! l = Some o -> h !! l = Some o.

(** The value of an attribute of the rod of the engine [self]:
    [self.cosserat_rod.<name>]. *)
Definition rod_attr (h : heap) (self : loc) (name : string) : option value :=
  '(_, sattrs) ← instance_of h (VRef self);
  rod ← sattrs !! "cosserat_rod";
  '(_, rattrs) ← instance_of h rod;
  rattrs !! name.

(** The midpoint of two node coordinates computed in the precision [d] of
    the node array, and the midpoints of adjacent columns in it. *)
Definition midpoint_in (d : Numpy.dtype) (hi lo : spec_float) : spec_float :=
  Numpy.f_mul d (Numpy.astype Numpy.float64 d Numpy.half) (Numpy.f_add d hi lo).

Definition midpoints_in (pc : Numpy.ndarray) : Numpy.ndarray :=
  {| Numpy.arr_dtype := Numpy.arr_dtype pc;
     Numpy.arr_shape := (fst (Numpy.arr_shape pc), (snd (Numpy.arr_shape pc) - 1)%nat);
     Numpy.arr_data :=
       (λ row : list spec_float,
          zip_with (midpoint_in (Numpy.arr_dtype pc)) (drop 1 row)
                   (take (length row - 1) row)) <$> Numpy.arr_data pc |}.

End RodState.

(** ** Concrete rods, engines and runs, to evaluate the definitions on *)

Module Scenario.
Import Python CosseratRodFlowInteraction ImmersedBody.

Definition f64 (m : positive) (e : Z) : spec_float := S754_finite false m e.
Definition one : spec_float := f64 4503599627370496 (-52).
Definition two : spec_float := f64 4503599627370496 (-51).
Definition three : spec_float := f64 6755399441055744 (-51).
Definition three_halves : spec_float := f64 6755399441055744 (-52).

(** Node positions of a rod of two elements: x = 0, 1, 3; y = 0; z = 1, 1, 2. *)
Definition nodes : Numpy.ndarray :=
  {| Numpy.arr_dtype := Numpy.float64;
     Numpy.arr_shape := (3%nat, 3%nat);
     Numpy.arr_data := [[Numpy.zero; one; three];
                        [Numpy.zero; Numpy.zero; Numpy.zero];
                        [one; one; two]] |}.

Definition field : Numpy.ndarray :=
  {| Numpy.arr_dtype := Numpy.float32;
     Numpy.arr_shape := (3%nat, 0%nat);
     Numpy.arr_data := [[]; []; []] |}.

Definition rod_attrs : gmap string value :=
  <["n_elems" := VInt 2]> (<["position_collection" := VRef 1%nat]> ∅).

(** A store with the rod at reference 0, its node positions at 1 and the
    two Eulerian fields at 2 and 3. *)
Definition h0 : heap :=
  <[0%nat := OInstance rod_attrs]>
  (<[1%nat := ONdarray nodes]>
  (<[2%nat := ONdarray field]>
  (<[3%nat := ONdarray field]> ∅))).

Definition kernel_always_compatible (w : option Z) (dx : spec_float) : bool := true.

Definition args (stiffness damping : spec_float) : InitArgs :=
  {| cosserat_rod := 0%nat;
     eul_grid_forcing_field := 2%nat;
     eul_grid_velocity_field := 3%nat;
     virtual_boundary_stiffness_coeff := stiffness;
     virtual_boundary_damping_coeff := damping;
     dx := one;
     grid_dim := 3;
     real_t := Numpy.float32;
     eul_grid_coord_shift := None;
     interp_kernel_width := None;
     enable_eul_grid_forcing_reset := false;
     num_threads := VBool false;
     start_time := Numpy.zero;
     forcing_grid_kwargs := ∅ |}.

Definition args_restoring : InitArgs := args (SFopp two) (SFopp one).
Definition args_wrong_sign : InitArgs := args two (SFopp one).

(** The state of an engine at reference 3 on the rod at reference 0, whose
    element positions, at reference 2, are still zero. *)
Definition engine_rod_attrs : gmap string value :=
  <["element_position" := VRef 2%nat]> rod_attrs.

Definition engine_attrs : gmap string value := <["cosserat_rod" := VRef 0%nat]> ∅.

Definition element_zeros : Numpy.ndarray :=
  {| Numpy.arr_dtype := Numpy.float64;
     Numpy.arr_shape := (3%nat, 2%nat);
     Numpy.arr_data := [[Numpy.zero; Numpy.zero];
                        [Numpy.zero; Numpy.zero];
                        [Numpy.zero; Numpy.zero]] |}.

Definition h_engine : heap :=
  <[0%nat := OInstance engine_rod_attrs]>
  (<[1%nat := ONdarray nodes]>
  (<[2%nat := ONdarray element_zeros]>
  (<[3%nat := OInstance engine_attrs]> ∅))).

(** Node arrays that do not fit a rod of two elements: five nodes, and two. *)
Definition five_nodes : Numpy.ndarray :=
  {| Numpy.arr_dtype := Numpy.float64;
     Numpy.arr_shape := (3%nat, 5%nat);
     Numpy.arr_data := replicate 3 [one; one; one; one; one] |}.

Definition two_nodes : Numpy.ndarray :=
  {| Numpy.arr_dtype := Numpy.float64;
     Numpy.arr_shape := (3%nat, 2%nat);
     Numpy.arr_data := replicate 3 [one; three] |}.

Definition element_twos : Numpy.ndarray :=
  {| Numpy.arr_dtype := Numpy.float64;
     Numpy.arr_shape := (3%nat, 2%nat);
     Numpy.arr_data := replicate 3 [two; two] |}.

(** The element positions the update writes: x = 0.5, 2; y = 0; z = 1, 1.5. *)
Definition element_midpoints : Numpy.ndarray :=
  {| Numpy.arr_dtype := Numpy.float64;
     Numpy.arr_shape := (3%nat, 2%nat);
     Numpy.arr_data := [[Numpy.half; two];
                        [Numpy.zero; Numpy.zero];
                        [one; three_halves]] |}.

(** The nodes of the example rod after the body integrator has moved them:
    x = 1, 2, 3 in every row. *)
Definition nodes_moved : Numpy.ndarray :=
  {| Numpy.arr_dtype := Numpy.float64;
     Numpy.arr_shape := (3%nat, 3%nat);
     Numpy.arr_data := replicate 3 [one; two; three] |}.

(** An engine at reference 3 on a rod kept in single precision, with one
    row of two nodes, 1 and 3, and one element. *)
Definition nodes_single : Numpy.ndarray :=
  {| Numpy.arr_dtype := Numpy.float32;
     Numpy.arr_shape := (1%nat, 2%nat);
     Numpy.arr_data := [[Numpy.astype Numpy.float64 Numpy.float32 one;
                         Numpy.astype Numpy.float64 Numpy.float32 three]] |}.

Definition element_single : Numpy.ndarray :=
  {| Numpy.arr_dtype := Numpy.float64;
     Numpy.arr_shape := (1%nat, 1%nat);
     Numpy.arr_data := [[Numpy.zero]] |}.

Definition h_single : heap :=
  <[0%nat := OInstance (<["n_elems" := VInt 1]> engine_rod_attrs)]>
  (<[1%nat := ONdarray nodes_single]>
  (<[2%nat := ONdarray element_single]>
  (<[3%nat := OInstance engine_attrs]> ∅))).

(** A marker at rest relative to the fluid, and one that slips. *)
Definition marker_at_rest : marker :=
  {| displacement_error := [0; 0; 0]%Qc;
     marker_velocity := [1; 0; 0]%Qc;
     interpolated_velocity := [1; 0; 0]%Qc |}.

Definition marker_slipping : marker :=
  {| displacement_error := [0; 0; 0]%Qc;
     marker_velocity := [1; 0; 0]%Qc;
     interpolated_velocity := [0; 0; 0]%Qc |}.

(** Double precision throughout, with [np.sum] summing from left to right. *)
Definition b64_of_Z (z : Z) : spec_float := binary_normalize 53 1024 z 0 false.

Fixpoint b64_pow (x : spec_float) (n : nat) : spec_float :=
  match n with
  | O => one
  | S n' => SFmul 53 1024 x (b64_pow x n')
  end.

#[local] Instance binary64 : FlowPastSphereCase.Numeric spec_float :=
  {| FlowPastSphereCase.of_Z := b64_of_Z;
     FlowPastSphereCase.literal q :=
       SFdiv 53 1024 (b64_of_Z (Qnum q)) (b64_of_Z (Zpos (Qden q)));
     FlowPastSphereCase.add := SFadd 53 1024;
     FlowPastSphereCase.mul := SFmul 53 1024;
     FlowPastSphereCase.div := SFdiv 53 1024;
     FlowPastSphereCase.pow x n := b64_pow x (Z.to_nat n);
     FlowPastSphereCase.ltb := SFltb;
     FlowPastSphereCase.eqb := SFeqb;
     FlowPastSphereCase.np_pi := f64 7074237752028440 (-51);
     FlowPastSphereCase.np_sum l := fold_left (SFadd 53 1024) l Numpy.zero;
     FlowPastSphereCase.np_fabs := SFabs |}.

(** Collaborators that only count: the world is the number of coupling
    steps applied; the time step is always 0.5 and the forcing along x on
    the two markers is minus the count. *)
#[local] Instance counting : FlowPastSphereCase.Collaborators spec_float nat :=
  {| FlowPastSphereCase.UnboundedFlowSimulator3D _ _ _ _ _ := 0%nat;
     FlowPastSphereCase.x_range_of _ := one;
     FlowPastSphereCase.y_range_of _ := Numpy.half;
     FlowPastSphereCase.z_range_of _ := Numpy.half;
     FlowPastSphereCase.dx_of _ := Numpy.half;
     FlowPastSphereCase.Sphere _ _ _ k := k;
     FlowPastSphereCase.RigidBodyFlowInteraction _ _ _ _ _ _ k := k;
     FlowPastSphereCase.lag_grid_forcing_field k axis :=
       match axis with
       | O => [b64_of_Z (- Z.of_nat k); b64_of_Z (- Z.of_nat k)]
       | _ => [Numpy.zero; Numpy.zero]
       end;
     FlowPastSphereCase.compute_stable_timestep _ k := (Numpy.half, k);
     FlowPastSphereCase.interactor_time_step _ k := k;
     FlowPastSphereCase.interactor_call k := S k;
     FlowPastSphereCase.flow_sim_time_step _ _ k := k |}.

Definition small_case : FlowPastSphereCase.params :=
  {| FlowPastSphereCase.grid_size := (2, 2, 4);
     FlowPastSphereCase.num_forcing_points_along_equator := 2;
     FlowPastSphereCase.reynolds := b64_of_Z 100;
     FlowPastSphereCase.coupling_stiffness := b64_of_Z (-600000);
     FlowPastSphereCase.coupling_damping := b64_of_Z (-350);
     FlowPastSphereCase.num_threads := 4;
     FlowPastSphereCase.precision := "single";
     FlowPastSphereCase.save_data := false |}.

End Scenario.

(** * Properties *)

Module NumpyFacts.
Import Numpy RodState.

Lemma well_shaped_spec (a : ndarray) :
  well_shaped a = true ↔
  length (arr_data a) = fst (arr_shape a) ∧
  Forall (λ row, length row = snd (arr_shape a)) (arr_data a).
Proof.
  unfold well_shaped. rewrite andb_true_iff, Nat.eqb_eq, forallb_forall, Forall_forall.
  split; intros [Hr Hc]; split; auto; intros row Hin.
  - apply Nat.eqb_eq, Hc. by apply list_elem_of_In.
  - apply Nat.eqb_eq, Hc. by apply list_elem_of_In.
Qed.

Lemma stretch_same {A} (n : nat) (l : list A) : length l = n -> stretch n l = l.
Proof. intros <-. unfold stretch. by rewrite Nat.eqb_refl. Qed.

Lemma slice_from_1 {A} (l : list A) : slice_list (Some 1) None l = drop 1 l.
Proof.
  unfold slice_list, slice_bound. simpl.
  destruct l as [|x l]; [done|].
  replace (Z.to_nat (Z.min 1 (Z.of_nat (length (x :: l))))) with 1%nat
    by (simpl length; lia).
  apply take_ge. rewrite length_drop. lia.
Qed.

Lemma slice_to_last {A} (l : list A) :
  slice_list None (Some (-1)) l = take (length l - 1) l.
Proof.
  unfold slice_list, slice_bound. simpl.
  rewrite drop_0. f_equal. lia.
Qed.

Lemma broadcast_dim_same (n : nat) : broadcast_dim n n = Some n.
Proof. unfold broadcast_dim. by rewrite Nat.eqb_refl. Qed.


Lemma astype_same (d : dtype) (x : spec_float) : astype d d x = x.
Proof. unfold astype. by destruct d. Qed.

Lemma stretch_rows {A} (c : nat) (rows : list (list A)) :
  Forall (λ row, length row = c) rows -> stretch c <$> rows = rows.
Proof.
  induction 1 as [|row rows Hrow _ IH]; [done|].
  rewrite fmap_cons, IH. f_equal. by apply stretch_same.
Qed.

Lemma broadcast_data_same (shape : nat * nat) (a : ndarray) :
  arr_shape a = shape -> well_shaped a = true -> broadcast_data shape a = arr_data a.
Proof.
  intros <- [Hr Hc]%well_shaped_spec. unfold broadcast_data.
  rewrite stretch_rows by done. apply stretch_same. by rewrite Hr.
Qed.

Lemma upper_eq (a : ndarray) :
  upper a = {| arr_dtype := arr_dtype a;
               arr_shape := (fst (arr_shape a), (snd (arr_shape a) - 1)%nat);
               arr_data := drop 1 <$> arr_data a |}.
Proof.
  unfold upper, getitem_last_axis. f_equal.
  - f_equal. unfold slice_bound. simpl. lia.
  - apply list_fmap_ext. intros _ row _. apply slice_from_1.
Qed.

Lemma lower_eq (a : ndarray) :
  lower a = {| arr_dtype := arr_dtype a;
               arr_shape := (fst (arr_shape a), (snd (arr_shape a) - 1)%nat);
               arr_data := (λ row : list spec_float, take (length row - 1) row) <$> arr_data a |}.
Proof.
  unfold lower, getitem_last_axis. f_equal.
  - f_equal. unfold slice_bound. simpl. lia.
  - apply list_fmap_ext. intros _ row _. apply slice_to_last.
Qed.

Lemma well_shaped_upper (a : ndarray) : well_shaped a = true -> well_shaped (upper a) = true.
Proof.
  rewrite upper_eq, !well_shaped_spec. simpl. intros [Hr Hc]. split.
  - by rewrite length_fmap.
  - apply Forall_fmap. eapply Forall_impl; [exact Hc|]. simpl.
    intros row Hrow. rewrite length_drop. lia.
Qed.

Lemma well_shaped_lower (a : ndarray) : well_shaped a = true -> well_shaped (lower a) = true.
Proof.
  rewrite lower_eq, !well_shaped_spec. simpl. intros [Hr Hc]. split.
  - by rewrite length_fmap.
  - apply Forall_fmap. eapply Forall_impl; [exact Hc|]. simpl.
    intros row Hrow. rewrite length_take. lia.
Qed.

Lemma map2d_id {A} (f : A -> A) (rows : list (list A)) :
  (∀ x, f x = x) -> map2d f rows = rows.
Proof.
  intros Hf. unfold map2d.
  induction rows as [|row rows IH]; [done|].
  rewrite fmap_cons, IH. f_equal.
  induction row as [|x row IHrow]; [done|].
  by rewrite fmap_cons, Hf, IHrow.
Qed.

Lemma zip_rows {A B C D} (f : B -> C -> D) (g : A -> B) (k : A -> C) (l : list A) :
  zip_with f (g <$> l) (k <$> l) = (λ x, f (g x) (k x)) <$> l.
Proof. induction l as [|x l IH]; [done|]. rewrite !fmap_cons. simpl. by rewrite IH. Qed.

Lemma fmap_zip_with {A B C D} (f : A -> B -> C) (g : C -> D) (l : list A) (k : list B) :
  g <$> zip_with f l k = zip_with (λ x y, g (f x y)) l k.
Proof.
  revert k. induction l as [|x l IH]; intros [|y k]; [done..|].
  simpl zip_with. by rewrite fmap_cons, IH.
Qed.

End NumpyFacts.

Module UpdateFacts.
Import Numpy NumpyFacts RodState.

(** The right-hand side [0.5 * (pc[..., 1:] + pc[..., :-1])] on a float64
    array is the array of midpoints. *)
Lemma rhs_midpoints (pc : ndarray) :
  arr_dtype pc = float64 -> well_shaped pc = true ->
  rmul_scalar half <$> add (upper pc) (lower pc) = Some (midpoints pc).
Proof.
  intros Hd Hw.
  pose proof (well_shaped_upper pc Hw) as Hu.
  pose proof (well_shaped_lower pc Hw) as Hl.
  assert (arr_shape (upper pc) = (fst (arr_shape pc), (snd (arr_shape pc) - 1)%nat)) as Hsu
    by (by rewrite upper_eq).
  assert (arr_shape (lower pc) = (fst (arr_shape pc), (snd (arr_shape pc) - 1)%nat)) as Hsl
    by (by rewrite lower_eq).
  assert (arr_dtype (upper pc) = float64) as Hdu by (by rewrite upper_eq).
  assert (arr_dtype (lower pc) = float64) as Hdl by (by rewrite lower_eq).
  assert (arr_data (upper pc) = drop 1 <$> arr_data pc) as Hau by (by rewrite upper_eq).
  assert (arr_data (lower pc) =
          (λ row : list spec_float, take (length row - 1) row) <$> arr_data pc) as Hal
    by (by rewrite lower_eq).
  unfold add. rewrite Hsu, Hsl, Hdu, Hdl. cbn [fst snd].
  rewrite !broadcast_dim_same. cbn [mbind option_bind promote].
  rewrite !broadcast_data_same by done.
  rewrite Hau, Hal, zip_rows.
  unfold rmul_scalar, midpoints, map2d, midpoint_rows. cbn [fmap option_fmap option_map arr_dtype arr_shape arr_data].
  do 2 f_equal. rewrite <-list_fmap_compose.
  apply list_fmap_ext. intros _ row _. cbn [compose].
  rewrite fmap_zip_with. apply zip_with_ext; [|done..].
  intros hi lo. by rewrite !astype_same.
Qed.

Lemma well_shaped_midpoints (pc : ndarray) :
  well_shaped pc = true -> well_shaped (midpoints pc) = true.
Proof.
  rewrite !well_shaped_spec. unfold midpoints, midpoint_rows. simpl.
  intros [Hr Hc]. split.
  - by rewrite length_fmap.
  - apply Forall_fmap. eapply Forall_impl; [exact Hc|]. simpl.
    intros row Hrow. rewrite length_zip_with, length_drop, length_take. lia.
Qed.

(** Writing the midpoints into a float64 array of their shape replaces its
    contents by them. *)
Lemma setitem_midpoints (ep pc : ndarray) :
  arr_dtype ep = float64 ->
  arr_shape ep = arr_shape (midpoints pc) ->
  well_shaped pc = true ->
  setitem_ellipsis ep (midpoints pc) = Some (midpoints pc).
Proof.
  intros Hd Hs Hw. unfold setitem_ellipsis, can_broadcast_to.
  rewrite Hs, !Nat.eqb_refl. cbn [orb andb].
  rewrite broadcast_data_same by auto using well_shaped_midpoints.
  by rewrite Hd, map2d_id by apply astype_same.
Qed.

End UpdateFacts.

Module PythonFacts.
Import Python.

Lemma bind_return {A B} (m : M A) (k : A -> M B) (h h' : heap) (a : A) :
  m h = Return a h' -> (m ≫= k) h = k a h'.
Proof. intros Hm. unfold mbind, M_bind, bind. by rewrite Hm. Qed.

Lemma bind_raise {A B} (m : M A) (k : A -> M B) (h h' : heap) (e : exn) :
  m h = Raise e h' -> (m ≫= k) h = Raise e h'.
Proof. intros Hm. unfold mbind, M_bind, bind. by rewrite Hm. Qed.

Lemma getattr_instance (h : heap) (l : loc) (attrs : gmap string value)
    (name : string) (w : value) :
  h !! l = Some (OInstance attrs) -> attrs !! name = Some w ->
  getattr (VRef l) name h = Return w h.
Proof. intros Hl Hn. unfold getattr, instance_of. by rewrite Hl, Hn. Qed.

Lemma setattr_instance (h : heap) (l : loc) (attrs : gmap string value)
    (name : string) (w : value) :
  h !! l = Some (OInstance attrs) ->
  setattr (VRef l) name w h = Return tt (<[l := OInstance (<[name := w]> attrs)]> h).
Proof. intros Hl. unfold setattr, instance_of. by rewrite Hl. Qed.

Lemma as_ndarray_ref (h : heap) (l : loc) (a : Numpy.ndarray) :
  h !! l = Some (ONdarray a) -> as_ndarray (VRef l) h = Return (l, a) h.
Proof. intros Hl. unfold as_ndarray. by rewrite Hl. Qed.

Lemma fresh_unused (h : heap) : h !! fresh (dom h) = None.
Proof. apply not_elem_of_dom, is_fresh. Qed.

Lemma np_zeros_alloc (h : heap) (shape : Z * Z) (dt : option Numpy.dtype) (a : Numpy.ndarray) :
  Numpy.zeros shape dt = Some a ->
  np_zeros shape dt h = Return (fresh (dom h)) (<[fresh (dom h) := ONdarray a]> h).
Proof. intros Hz. unfold np_zeros. by rewrite Hz. Qed.

End PythonFacts.

Module EngineFacts.
Import Python CosseratRodFlowInteraction Numpy NumpyFacts RodState UpdateFacts PythonFacts.

(** On a store where the engine is attached to a rod, the update returns
    [None] and overwrites the element positions with the midpoints. *)
Lemma update_on_rod (h : heap) (self rod pcl epl : loc)
    (sattrs rattrs : gmap string value) (pc ep : ndarray) :
  h !! self = Some (OInstance sattrs) ->
  sattrs !! "cosserat_rod" = Some (VRef rod) ->
  h !! rod = Some (OInstance rattrs) ->
  rattrs !! "position_collection" = Some (VRef pcl) ->
  rattrs !! "element_position" = Some (VRef epl) ->
  h !! pcl = Some (ONdarray pc) ->
  h !! epl = Some (ONdarray ep) ->
  arr_dtype pc = float64 -> well_shaped pc = true ->
  arr_dtype ep = float64 -> arr_shape ep = arr_shape (midpoints pc) ->
  update_rod_element_position self h = Return tt (<[epl := ONdarray (midpoints pc)]> h).
Proof.
  intros Hself Hrod Hr Hpc Hep Hpcl Hepl Hd Hw Hde Hse.
  unfold update_rod_element_position.
  pose proof (rhs_midpoints pc Hd Hw) as Hrhs. unfold upper, lower in Hrhs.
  destruct (add _ _) as [s|] eqn:Hadd; [|done].
  apply (inj Some) in Hrhs.
  repeat first
    [ erewrite bind_return; [|by eapply getattr_instance]
    | erewrite bind_return; [|by eapply as_ndarray_ref]
    | progress cbn beta iota zeta ].
  rewrite Hadd. unfold lift at 1.
  erewrite bind_return; [|reflexivity].
  repeat first
    [ erewrite bind_return; [|by eapply getattr_instance]
    | erewrite bind_return; [|by eapply as_ndarray_ref]
    | progress cbn beta iota zeta ].
  rewrite Hrhs, setitem_midpoints by done.
  unfold lift. erewrite bind_return; [|reflexivity].
  reflexivity.
Qed.

Lemma arr_get_midpoints (pc : ndarray) (i j : nat) (hi lo : spec_float) :
  arr_get pc i (j + 1) = Some hi -> arr_get pc i j = Some lo ->
  arr_get (midpoints pc) i j = Some (midpoint hi lo).
Proof.
  unfold arr_get, midpoints, midpoint_rows. cbn [arr_data].
  rewrite list_lookup_fmap.
  destruct (arr_data pc !! i) as [row|]; [|done]. cbn.
  intros Hhi Hlo. rewrite lookup_zip_with, lookup_drop.
  replace (1 + j)%nat with (j + 1)%nat by lia. rewrite Hhi. cbn.
  rewrite lookup_take_lt, Hlo; [done|].
  apply lookup_lt_Some in Hhi. lia.
Qed.

Lemma arr_get_in_range (a : ndarray) (i j : nat) :
  well_shaped a = true ->
  (i < fst (arr_shape a))%nat -> (j < snd (arr_shape a))%nat ->
  is_Some (arr_get a i j).
Proof.
  intros [Hr Hc]%well_shaped_spec Hi Hj. unfold arr_get.
  destruct (lookup_lt_is_Some_2 (arr_data a) i) as [row Hrow]; [lia|].
  rewrite Hrow. cbn. apply lookup_lt_is_Some_2.
  rewrite Forall_forall in Hc. rewrite (Hc row); [done|].
  by eapply list_elem_of_lookup_2.
Qed.

Lemma update_on_engine (self rod epl : loc) (n : Z) (h : heap) :
  engine_inv self rod n epl h ->
  ∃ pcl pc,
    rod_array h self "position_collection" = Some (pcl, pc) ∧
    arr_dtype pc = float64 ∧
    arr_shape pc = (3%nat, (Z.to_nat n + 1)%nat) ∧
    well_shaped pc = true ∧
    pcl ≠ epl ∧
    update_rod_element_position self h
      = Return tt (<[epl := ONdarray (midpoints pc)]> h).
Proof.
  intros [(sattrs & Hself & Hrod) [(attrs & pcl & pc & Hr & Hn & Hpc & Hpcl & Hn0 & Hd & Hs & Hw & Hlim)
          (rattrs & ep & Hr' & Hep & Hepl & Hde & Hse)]].
  assert (rattrs = attrs) as -> by congruence.
  exists pcl, pc. split_and!; try done.
  - unfold rod_array, instance_of. rewrite Hself. cbn. rewrite Hrod. cbn.
    rewrite Hr. cbn. rewrite Hpc. cbn. by rewrite Hpcl.
  - intros ->. rewrite Hpcl in Hepl. injection Hepl as ->.
    rewrite Hs in Hse. injection Hse. lia.
  - eapply update_on_rod; try done.
    rewrite Hse. unfold midpoints. cbn. rewrite Hs. cbn. f_equal. lia.
Qed.

End EngineFacts.

Module ConstructFacts.
Import Python CosseratRodFlowInteraction Numpy NumpyFacts RodState UpdateFacts PythonFacts EngineFacts.

Lemma zeros_nonneg (r c : Z) (dt : option dtype) :
  0 <= r -> 0 <= c ->
  within_limits (default float64 dt) (r, c) = true ->
  zeros (r, c) dt = Some {| arr_dtype := default float64 dt;
                            arr_shape := (Z.to_nat r, Z.to_nat c);
                            arr_data := replicate (Z.to_nat r) (replicate (Z.to_nat c) zero) |}.
Proof.
  intros Hr Hc Hlim. unfold zeros. rewrite Hlim.
  destruct (r <? 0) eqn:Er; [lia|]. destruct (c <? 0) eqn:Ec; [lia|]. done.
Qed.

(** Three rows of float64: the limit is one on the number of columns. *)
Lemma within_limits_rows (c : Z) :
  0 <= c -> within_limits float64 (3, c) = true ↔ 24 * c <= max_intp.
Proof.
  intros Hc. unfold within_limits. cbn [fst snd itemsize].
  change (3 =? 0) with false. cbn match.
  rewrite Z.leb_le. unfold max_intp.
  destruct (Z.eqb_spec c 0) as [->|Hne]; lia.
Qed.

(** Where the node array of a rod is one numpy can hold, so are the arrays
    the constructor allocates. *)
Lemma limits_of_nodes (pc : ndarray) (n : Z) :
  0 <= n ->
  arr_dtype pc = float64 ->
  arr_shape pc = (3%nat, (Z.to_nat n + 1)%nat) ->
  representable pc = true ->
  within_limits float64 (3, n + 1) = true ∧ within_limits float64 (3, n) = true.
Proof.
  intros Hn Hd Hs Hrep. unfold representable in Hrep. rewrite Hd, Hs in Hrep.
  cbn [fst snd] in Hrep. change (Z.of_nat 3) with 3 in Hrep.
  apply within_limits_rows in Hrep; [|lia].
  split; apply within_limits_rows; lia.
Qed.

Lemma get_n_elems (h : heap) (rod : loc) (attrs : gmap string value) (n : Z) :
  h !! rod = Some (OInstance attrs) -> attrs !! "n_elems" = Some (VInt n) ->
  (getattr (VRef rod) "n_elems" ≫= as_index) h = Return n h.
Proof.
  intros Hr Hn. erewrite bind_return; [|by eapply getattr_instance]. done.
Qed.

Lemma get_n_elems_succ (h : heap) (rod : loc) (attrs : gmap string value) (n : Z) :
  h !! rod = Some (OInstance attrs) -> attrs !! "n_elems" = Some (VInt n) ->
  ((getattr (VRef rod) "n_elems" ≫= add_one) ≫= as_index) h = Return (n + 1) h.
Proof.
  intros Hr Hn.
  erewrite bind_return;
    [|erewrite bind_return; [|by eapply getattr_instance]; reflexivity].
  done.
Qed.

Lemma fresh_ne (h : heap) (l : loc) (o : obj) : h !! l = Some o -> l ≠ fresh (dom h).
Proof. intros Hl ->. by rewrite fresh_unused in Hl. Qed.

Lemma lookup_alloc (h : heap) (l : loc) (o o' : obj) :
  h !! l = Some o -> <[fresh (dom h) := o']> h !! l = Some o.
Proof. intros Hl. rewrite lookup_insert_ne; [done|]. symmetry. by eapply fresh_ne. Qed.

Section WithGrid.
Context `{FG : ForcingGridClass} {accepts : Z -> Z -> Prop} {FGok : ForcingGridOk FG accepts}.

(** The state the first part of the constructor leaves. *)
Lemma init_body_spec (h : heap) (self : loc) (a : InitArgs) (n : Z)
    (sattrs attrs : gmap string value) (pcl : loc) (pc : ndarray) :
  h !! self = Some (OInstance sattrs) ->
  self ≠ cosserat_rod a ->
  h !! cosserat_rod a = Some (OInstance attrs) ->
  attrs !! "n_elems" = Some (VInt n) ->
  attrs !! "position_collection" = Some (VRef pcl) ->
  h !! pcl = Some (ONdarray pc) ->
  0 <= n ->
  arr_dtype pc = float64 ->
  arr_shape pc = (3%nat, (Z.to_nat n + 1)%nat) ->
  well_shaped pc = true ->
  representable pc = true ->
  accepts (grid_dim a) n ->
  ∃ (bf bt fg epl : loc) (zf zt : ndarray) (h' : heap),
    init_body self a h =
      Return (super_args a bf bt fg) h' ∧
    zeros (3, n + 1) None = Some zf ∧ zeros (3, n) None = Some zt ∧
    h !! bf = None ∧ h !! bt = None ∧ h !! epl = None ∧ bf ≠ bt ∧
    h' !! bf = Some (ONdarray zf) ∧
    h' !! bt = Some (ONdarray zt) ∧
    h' !! self = Some (OInstance (<["cosserat_rod" := VRef (cosserat_rod a)]> sattrs)) ∧
    h' !! cosserat_rod a = Some (OInstance (<["element_position" := VRef epl]> attrs)) ∧
    h' !! epl = Some (ONdarray (midpoints pc)) ∧
    (∀ l o, l ≠ self -> l ≠ cosserat_rod a -> h !! l = Some o -> h' !! l = Some o).
Proof.
  intros Hself Hne Hrod Hn Hpc Hpcl Hn0 Hd Hs Hw Hrep Hacc.
  set (rod := cosserat_rod a) in *.
  assert ((Z.to_nat n + 1 - 1)%nat = Z.to_nat n) as Hpred by lia.
  destruct (limits_of_nodes pc n Hn0 Hd Hs Hrep) as [Hlimf Hlimt].
  pose proof (zeros_nonneg 3 (n + 1) None ltac:(lia) ltac:(lia) Hlimf) as Hzf.
  pose proof (zeros_nonneg 3 n None ltac:(lia) ltac:(lia) Hlimt) as Hzt.
  set (zf := mk_ndarray _ _ _) in Hzf. set (zt := mk_ndarray _ _ _) in Hzt.
  set (l1 := fresh (dom h)).
  set (h1 := <[l1 := ONdarray zf]> h).
  set (l2 := fresh (dom h1)).
  set (h2 := <[l2 := ONdarray zt]> h1).
  assert (h !! l1 = None) as Hl1 by apply fresh_unused.
  assert (h1 !! l2 = None) as Hl2 by apply fresh_unused.
  assert (h1 !! l1 = Some (ONdarray zf)) as H1l1 by apply lookup_insert_eq.
  assert (l1 ≠ l2) as Hl12 by (by eapply fresh_ne).
  assert (∀ l o, h !! l = Some o -> h2 !! l = Some o) as Hframe2.
  { intros l o Hl. by apply lookup_alloc, lookup_alloc. }
  destruct (forcing_grid_returns h2 (grid_dim a) rod (forcing_grid_kwargs a) attrs n)
    as (fg & h3 & Hfg & Hsub); [by apply Hframe2|done|done|].
  assert (∀ l o, h2 !! l = Some o -> h3 !! l = Some o) as Hframe3.
  { intros l o Hl. by eapply lookup_weaken. }
  set (sattrs' := <["cosserat_rod" := VRef rod]> sattrs).
  set (h4 := <[self := OInstance sattrs']> h3).
  assert (∀ l o, l ≠ self -> h !! l = Some o -> h4 !! l = Some o) as Hframe4.
  { intros l o Hl Hlo. unfold h4. rewrite lookup_insert_ne by done. auto. }
  set (l3 := fresh (dom h4)).
  set (h5 := <[l3 := ONdarray zt]> h4).
  assert (h4 !! l3 = None) as Hl3 by apply fresh_unused.
  set (attrs' := <["element_position" := VRef l3]> attrs).
  set (h6 := <[rod := OInstance attrs']> h5).
  set (h7 := <[l3 := ONdarray (midpoints pc)]> h6).
  assert (h4 !! self = Some (OInstance sattrs')) as H4self by apply lookup_insert_eq.
  assert (h4 !! rod = Some (OInstance attrs)) as H4rod by auto.
  assert (l3 ≠ self) as Hl3self by (intros E; rewrite E in Hl3; congruence).
  assert (l3 ≠ rod) as Hl3rod by (intros E; rewrite E in Hl3; congruence).
  assert (pcl ≠ self) as Hpclself by (intros E; rewrite E in Hpcl; congruence).
  assert (pcl ≠ rod) as Hpclrod by (intros E; rewrite E in Hpcl; congruence).
  assert (l3 ≠ pcl) as Hl3pcl.
  { intros E. rewrite E in Hl3. rewrite (Hframe4 pcl _ Hpclself Hpcl) in Hl3. done. }
  assert (h2 !! l1 = Some (ONdarray zf)) as H2l1 by (by apply lookup_alloc).
  assert (h2 !! l2 = Some (ONdarray zt)) as H2l2 by apply lookup_insert_eq.
  assert (l1 ≠ self) as Hl1self by (intros E; rewrite E in Hl1; congruence).
  assert (l1 ≠ rod) as Hl1rod by (intros E; rewrite E in Hl1; congruence).
  assert (h1 !! self = Some (OInstance sattrs)) as H1self by (by apply lookup_alloc).
  assert (h1 !! rod = Some (OInstance attrs)) as H1rod by (by apply lookup_alloc).
  assert (l2 ≠ self) as Hl2self by (intros E; rewrite E in Hl2; congruence).
  assert (l2 ≠ rod) as Hl2rod by (intros E; rewrite E in Hl2; congruence).
  assert (h4 !! l1 = Some (ONdarray zf)) as H4l1.
  { unfold h4. rewrite lookup_insert_ne by done. auto. }
  assert (h4 !! l2 = Some (ONdarray zt)) as H4l2.
  { unfold h4. rewrite lookup_insert_ne by done. auto. }
  assert (l3 ≠ l1) as Hl31 by (intros E; rewrite E in Hl3; congruence).
  assert (l3 ≠ l2) as Hl32 by (intros E; rewrite E in Hl3; congruence).
  assert (h6 !! self = Some (OInstance sattrs')) as H6self.
  { unfold h6, h5. rewrite !lookup_insert_ne by done. done. }
  assert (h6 !! rod = Some (OInstance attrs')) as H6rod by apply lookup_insert_eq.
  assert (h6 !! pcl = Some (ONdarray pc)) as H6pcl.
  { unfold h6, h5. rewrite !lookup_insert_ne by done. auto. }
  assert (h6 !! l3 = Some (ONdarray zt)) as H6l3.
  { unfold h6. rewrite lookup_insert_ne by done. apply lookup_insert_eq. }
  exists l1, l2, fg, l3, zf, zt, h7.
  split_and!; try done.
  - unfold init_body. fold rod.
    erewrite bind_return; [|by eapply get_n_elems_succ].
    erewrite bind_return; [|by eapply np_zeros_alloc]. fold l1 h1.
    erewrite bind_return; [|eapply get_n_elems; [by apply lookup_alloc|done]].
    erewrite bind_return; [|by eapply np_zeros_alloc]. fold l2 h2.
    erewrite bind_return; [|exact Hfg].
    erewrite bind_return; [|eapply setattr_instance; by apply Hframe3, Hframe2].
    fold sattrs' h4.
    erewrite bind_return; [|by eapply get_n_elems].
    erewrite bind_return; [|by eapply np_zeros_alloc]. fold l3 h5.
    erewrite bind_return;
      [|eapply getattr_instance;
        [unfold h5; rewrite lookup_insert_ne by done; exact H4self
        |apply lookup_insert_eq]].
    erewrite bind_return;
      [|eapply setattr_instance; unfold h5; rewrite lookup_insert_ne by done; exact H4rod].
    fold attrs' h6.
    erewrite bind_return.
    2:{ eapply (update_on_rod h6 self rod pcl l3 sattrs' attrs' pc zt); try done.
        - apply lookup_insert_eq.
        - unfold attrs'. rewrite lookup_insert_ne by discriminate. done.
        - apply lookup_insert_eq.
        - unfold midpoints, zt. cbn [arr_shape]. rewrite Hs. cbn [fst snd].
          by rewrite Hpred. }
    reflexivity.
  - unfold h1 in Hl2. by rewrite lookup_insert_ne in Hl2.
  - destruct (h !! l3) as [o|] eqn:E; [|done].
    by rewrite (Hframe4 l3 o Hl3self E) in Hl3.
  - unfold h7, h6, h5. by rewrite !lookup_insert_ne.
  - unfold h7, h6, h5. by rewrite !lookup_insert_ne.
  - unfold h7. by rewrite lookup_insert_ne.
  - unfold h7. by rewrite lookup_insert_ne.
  - apply lookup_insert_eq.
  - intros l o Hls Hlr Hl. unfold h7, h6, h5.
    assert (h4 !! l = Some o) as H4l by auto.
    assert (l3 ≠ l) by (intros E; rewrite E in Hl3; congruence).
    by rewrite !lookup_insert_ne.
Qed.


(** A construction on a well-formed rod reaches the initialiser of the
    super class: it hands over two new arrays of zeros as accumulators and
    the rest of its arguments as they were passed, and it returns or raises
    as that initialiser does. *)
Lemma construct_reaches_super (h : heap) (a : InitArgs) (n : Z) :
  rod_ok h (cosserat_rod a) n ->
  accepts (grid_dim a) n ->
  ∃ (self bf bt fg : loc) (zf zt : ndarray) (h' : heap) (sattrs : gmap string value),
    h !! self = None ∧
    h' !! self = Some (OInstance sattrs) ∧
    zeros (3, n + 1) None = Some zf ∧ zeros (3, n) None = Some zt ∧
    h !! bf = None ∧ h !! bt = None ∧ bf ≠ bt ∧
    h' !! bf = Some (ONdarray zf) ∧ h' !! bt = Some (ONdarray zt) ∧
    ∀ SC : SuperClass,
      construct a h = finish self (super_init self (super_args a bf bt fg) h').
Proof.
  intros (attrs & pcl & pc & Hrod & Hn & Hpc & Hpcl & Hn0 & Hd & Hs & Hw & Hlim) Hacc.
  set (self := fresh (dom h)).
  assert (h !! self = None) as Hself by apply fresh_unused.
  assert (self ≠ cosserat_rod a) as Hsr by (intros E; rewrite E in Hself; congruence).
  destruct (init_body_spec (<[self := OInstance ∅]> h) self a n ∅ attrs pcl pc)
    as (bf & bt & fg & epl & zf & zt & h7 & Hinit & Hzf & Hzt & Hbf & Hbt & _ & Hbft
        & H7bf & H7bt & H7self & _); try done.
  { apply lookup_insert_eq. }
  { by apply lookup_alloc. }
  { by apply lookup_alloc. }
  assert (h !! bf = None) as Hbf0.
  { destruct (decide (self = bf)) as [<-|Hne]; [done|]. by rewrite lookup_insert_ne in Hbf. }
  assert (h !! bt = None) as Hbt0.
  { destruct (decide (self = bt)) as [<-|Hne]; [done|]. by rewrite lookup_insert_ne in Hbt. }
  eexists self, bf, bt, fg, zf, zt, h7, _. split_and!; try done.
  intros SC. unfold construct.
  erewrite bind_return; [|reflexivity]. fold self.
  unfold __init__, mbind, M_bind, bind. rewrite Hinit.
  by destruct (super_init _ _ _).
Qed.

Context `{SC : SuperClass} {saccepts : SuperArgs -> Prop} {SCok : SuperOk SC saccepts}.

(** What a construction on a well-formed rod returns and leaves. *)
Lemma construct_spec (h : heap) (a : InitArgs) (n : Z) :
  rod_ok h (cosserat_rod a) n ->
  accepts (grid_dim a) n ->
  (∀ bf bt fg, saccepts (super_args a bf bt fg)) ->
  ∃ (self epl : loc) (h' : heap) (attrs : gmap string value),
    construct a h = Return self h' ∧
    h !! self = None ∧ h !! epl = None ∧
    h !! cosserat_rod a = Some (OInstance attrs) ∧
    h' !! cosserat_rod a = Some (OInstance (<["element_position" := VRef epl]> attrs)) ∧
    engine_inv self (cosserat_rod a) n epl h' ∧
    (∀ l o, l ≠ cosserat_rod a -> h !! l = Some o -> h' !! l = Some o).
Proof.
  intros (attrs & pcl & pc & Hrod & Hn & Hpc & Hpcl & Hn0 & Hd & Hs & Hw & Hlim) Hacc Hsacc.
  assert ((Z.to_nat n + 1 - 1)%nat = Z.to_nat n) as Hpred by lia.
  set (self := fresh (dom h)).
  set (hs := <[self := OInstance ∅]> h).
  assert (h !! self = None) as Hself by apply fresh_unused.
  assert (self ≠ cosserat_rod a) as Hsr by (intros E; rewrite E in Hself; congruence).
  assert (self ≠ pcl) as Hsp by (intros E; rewrite E in Hself; congruence).
  destruct (init_body_spec hs self a n ∅ attrs pcl pc)
    as (bf & bt & fg & epl & zf & zt & h7 & Hinit & Hzf & Hzt & Hbf & Hbt & Hepl & Hbft
        & H7bf & H7bt & H7self & H7rod & H7epl & Hframe); try done.
  { apply lookup_insert_eq. }
  { by apply lookup_alloc. }
  { by apply lookup_alloc. }
  destruct (super_returns h7 self (super_args a bf bt fg) _ H7self (Hsacc bf bt fg))
    as (h8 & sattrs' & Hsuper & H8self & Hkeep & Hframe8).
  assert (epl ≠ self) as Hes.
  { intros E. rewrite E in Hepl. unfold hs in Hepl. by rewrite lookup_insert_eq in Hepl. }
  assert (h !! epl = None) as Hepl0.
  { unfold hs in Hepl. by rewrite lookup_insert_ne in Hepl. }
  assert (h7 !! pcl = Some (ONdarray pc)) as H7pcl.
  { apply Hframe; [done| |by apply lookup_alloc]. intros E. rewrite E, Hrod in Hpcl. discriminate. }
  exists self, epl, h8, attrs. split_and!; try done.
  - unfold construct.
    erewrite bind_return; [|reflexivity]. fold self hs.
    erewrite bind_return; [reflexivity|].
    unfold __init__. erewrite bind_return; [|exact Hinit]. exact Hsuper.
  - apply Hframe8; [done|exact H7rod].
  - split_and!.
    + exists sattrs'. split; [done|]. rewrite Hkeep. apply lookup_insert_eq.
    + exists (<["element_position" := VRef epl]> attrs), pcl, pc.
      split_and!; try done.
      * by apply Hframe8.
      * by rewrite lookup_insert_ne by discriminate.
      * by rewrite lookup_insert_ne by discriminate.
      * apply Hframe8; [|done]. by intros ->.
    + exists (<["element_position" := VRef epl]> attrs), (midpoints pc).
      split_and!; try done.
      * by apply Hframe8.
      * apply lookup_insert_eq.
      * by apply Hframe8.
      * unfold midpoints. cbn [arr_shape]. rewrite Hs. cbn [fst snd]. by rewrite Hpred.
  - intros l o Hlr Hl.
    assert (l ≠ self) as Hls by (intros E; rewrite E in Hl; congruence).
    apply Hframe8; [done|]. apply Hframe; [done..|]. by apply lookup_alloc.
Qed.

End WithGrid.
End ConstructFacts.

Module StepFacts.
Import Python CosseratRodFlowInteraction Numpy NumpyFacts RodState UpdateFacts PythonFacts EngineFacts.

(** Overwriting an array by one of its dtype and shape keeps the state of
    the engine. *)
Lemma engine_inv_overwrite (self rod epl l : loc) (n : Z) (h : heap) (a a' : ndarray) :
  engine_inv self rod n epl h ->
  h !! l = Some (ONdarray a) ->
  arr_dtype a' = arr_dtype a -> arr_shape a' = arr_shape a ->
  well_shaped a' = true ->
  engine_inv self rod n epl (<[l := ONdarray a']> h).
Proof.
  intros [(sattrs & Hself & Hrod) [(attrs & pcl & pc & Hr & Hn & Hpc & Hpcl & Hn0 & Hd & Hs & Hw & Hlim)
          (rattrs & ep & Hr' & Hep & Hepl & Hde & Hse)]] Hl Hda Hsa Hwa.
  assert (l ≠ self) as Hls by (intros E; rewrite E in Hl; congruence).
  assert (l ≠ rod) as Hlr by (intros E; rewrite E in Hl; congruence).
  split_and!.
  - exists sattrs. by rewrite lookup_insert_ne.
  - destruct (decide (l = pcl)) as [->|Hne].
    + exists attrs, pcl, a'. rewrite lookup_insert_ne by done. rewrite lookup_insert_eq.
      assert (a = pc) as -> by congruence.
      split_and!; try done; try congruence.
      unfold representable. by rewrite Hda, Hsa.
    + exists attrs, pcl, pc. rewrite !lookup_insert_ne by done. done.
  - destruct (decide (l = epl)) as [->|Hne].
    + exists rattrs, a'. rewrite lookup_insert_ne by done. rewrite lookup_insert_eq.
      assert (a = ep) as -> by congruence.
      split_and!; try done; congruence.
    + exists rattrs, ep. rewrite !lookup_insert_ne by done. done.
Qed.

Lemma rod_array_Some (h : heap) (self : loc) (name : string) (l : loc) (a : ndarray) :
  rod_array h self name = Some (l, a) -> h !! l = Some (ONdarray a).
Proof.
  unfold rod_array. intros Hra.
  destruct (instance_of h (VRef self)) as [[? sattrs]|]; [|done]. cbn in Hra.
  destruct (sattrs !! "cosserat_rod") as [rod|]; [|done]. cbn in Hra.
  destruct (instance_of h rod) as [[? rattrs]|]; [|done]. cbn in Hra.
  destruct (rattrs !! name) as [v|]; [|done]. cbn in Hra.
  destruct v as [| | | | |l']; try done.
  destruct (h !! l') as [[a'|]|] eqn:E; try done. by injection Hra as -> ->.
Qed.

Lemma instance_of_overwrite (h : heap) (l : loc) (a a' : ndarray) (v : value) :
  h !! l = Some (ONdarray a) ->
  instance_of (<[l := ONdarray a']> h) v = instance_of h v.
Proof.
  intros Hl. destruct v as [| | | | |x]; try done. unfold instance_of.
  destruct (decide (x = l)) as [->|Hne].
  - by rewrite lookup_insert_eq, Hl.
  - by rewrite lookup_insert_ne.
Qed.

(** An array of the rod other than the overwritten one is read as before. *)
Lemma rod_array_overwrite_ne (h : heap) (self : loc) (name : string)
    (l l0 : loc) (a a' a0 : ndarray) :
  h !! l = Some (ONdarray a) ->
  rod_array h self name = Some (l0, a0) -> l0 ≠ l ->
  rod_array (<[l := ONdarray a']> h) self name = Some (l0, a0).
Proof.
  intros Hl Hra Hne. unfold rod_array in *.
  rewrite (instance_of_overwrite h l a a') by done.
  destruct (instance_of h (VRef self)) as [[? sattrs]|]; [|done]. cbn in *.
  destruct (sattrs !! "cosserat_rod") as [rod|]; [|done]. cbn in *.
  rewrite (instance_of_overwrite h l a a') by done.
  destruct (instance_of h rod) as [[? rattrs]|]; [|done]. cbn in *.
  destruct (rattrs !! name) as [v|]; [|done]. cbn in *.
  destruct v as [| | | | |l']; try done.
  destruct (h !! l') as [[a1|]|] eqn:E; try done. injection Hra as -> ->.
  by rewrite lookup_insert_ne, E.
Qed.

Lemma rod_array_inv (self rod epl : loc) (n : Z) (h : heap) :
  engine_inv self rod n epl h ->
  ∃ ep, rod_array h self "element_position" = Some (epl, ep) ∧
        arr_dtype ep = float64 ∧ arr_shape ep = (3%nat, Z.to_nat n).
Proof.
  intros [(sattrs & Hself & Hrod) [_ (rattrs & ep & Hr' & Hep & Hepl & Hde & Hse)]].
  exists ep. split; [|done].
  unfold rod_array, instance_of. rewrite Hself. cbn. rewrite Hrod. cbn.
  rewrite Hr'. cbn. rewrite Hep. cbn. by rewrite Hepl.
Qed.

Lemma engine_inv_step (self rod epl : loc) (n : Z) (h h' : heap) :
  engine_inv self rod n epl h -> step self h h' -> engine_inv self rod n epl h'.
Proof.
  intros Hinv Hstep. destruct Hstep as [h h' Hupd|h pcl pc pc' Hpc Hd Hs Hw].
  - destruct (update_on_engine _ _ _ _ _ Hinv) as (pcl & pc & _ & Hd & Hs & Hw & _ & Hupd').
    rewrite Hupd' in Hupd. injection Hupd as <-.
    destruct (rod_array_inv _ _ _ _ _ Hinv) as (ep & Hep & Hde & Hse).
    pose proof (rod_array_Some _ _ _ _ _ Hep) as Hepl.
    apply (engine_inv_overwrite self rod epl epl n h ep (midpoints pc)); [done|done| | |].
    + by rewrite Hde.
    + rewrite Hse. unfold midpoints. cbn [arr_shape]. rewrite Hs. cbn [fst snd].
      f_equal. lia.
    + by apply well_shaped_midpoints.
  - pose proof (rod_array_Some _ _ _ _ _ Hpc) as Hpcl.
    by eapply engine_inv_overwrite.
Qed.

Lemma engine_inv_steps (self rod epl : loc) (n : Z) (h h' : heap) :
  engine_inv self rod n epl h -> rtc (step self) h h' -> engine_inv self rod n epl h'.
Proof. intros Hinv Hsteps. induction Hsteps; eauto using engine_inv_step. Qed.

End StepFacts.

Module CollaboratorFacts.
Import Python CosseratRodFlowInteraction Numpy NumpyFacts RodState PythonFacts ConstructFacts ImmersedBody.

Lemma alloc_subseteq (h : heap) (o : obj) : h ⊆ <[fresh (dom h) := o]> h.
Proof. apply insert_subseteq, fresh_unused. Qed.

(** The flexible-rod forcing grid returns for a rod with elements and a
    grid of dimension 2 or 3, and only allocates. *)
Lemma rod_grid_ok : ForcingGridOk rod_grid rod_grid_accepts.
Proof.
  intros h gd rod kw attrs n Hrod Hn (Hn1 & Hgd & Hlim).
  cbn [forcing_grid_cls rod_grid]. unfold FlexibleRodGrid.
  erewrite bind_return; [|by eapply get_n_elems].
  assert ((n <=? 0) || negb ((gd =? 2) || (gd =? 3)) = false) as ->.
  { destruct Hgd as [-> | ->]; cbn; rewrite orb_false_r; lia. }
  assert (0 <= gd) as Hgd0 by lia.
  erewrite bind_return; [|apply np_zeros_alloc, zeros_nonneg; [lia..|done]].
  erewrite bind_return; [|apply np_zeros_alloc, zeros_nonneg; [lia..|done]].
  unfold alloc. eexists _, _. split; [reflexivity|].
  etrans; [apply alloc_subseteq|]. etrans; [apply alloc_subseteq|]. apply alloc_subseteq.
Qed.

Section Base.
Variable kernel_width_compatible : option Z -> spec_float -> bool.

Lemma setattr_self_only (self : loc) (name : string) (w : value)
    (h0 h : heap) (attrs0 attrs : gmap string value) :
  name ≠ "cosserat_rod" ->
  self_only self h0 attrs0 h attrs ->
  ∃ h1 attrs1, setattr (VRef self) name w h = Return tt h1 ∧
               self_only self h0 attrs0 h1 attrs1.
Proof.
  intros Hname (Hself & Hkeep & Hframe).
  eexists _, _. split; [by eapply setattr_instance|].
  split_and!.
  - apply lookup_insert_eq.
  - by rewrite lookup_insert_ne.
  - intros l o Hl Hlo. rewrite lookup_insert_ne by done. auto.
Qed.

Ltac setattr_step H :=
  let h1 := fresh "h" in
  let attrs1 := fresh "attrs" in
  let Hs := fresh "Hset" in
  let H1 := fresh "Hso" in
  lazymatch goal with
  | |- context [setattr (VRef ?self) ?name ?w ≫= _] =>
      destruct (setattr_self_only self name w _ _ _ _ ltac:(discriminate) H)
        as (h1 & attrs1 & Hs & H1);
      erewrite bind_return; [|exact Hs]; clear Hs
  end.

Lemma engine_base_ok :
  SuperOk (engine_base kernel_width_compatible)
          (engine_base_accepts kernel_width_compatible).
Proof.
  intros h self sa attrs Hself [Hsign Hkw].
  cbn [super_init engine_base]. unfold ImmersedBodyFlowInteraction_init.
  rewrite Hsign, Hkw. cbn [negb].
  assert (self_only self h attrs h attrs) as H0 by (by split_and!).
  setattr_step H0. setattr_step Hso. setattr_step Hso0. setattr_step Hso1.
  setattr_step Hso2. setattr_step Hso3. setattr_step Hso4. setattr_step Hso5.
  setattr_step Hso6. setattr_step Hso7. setattr_step Hso8. setattr_step Hso9.
  setattr_step Hso10. setattr_step Hso11.
  destruct (setattr_self_only self "time" (VFloat (sa_start_time sa)) _ _ _ _
              ltac:(discriminate) Hso12) as (h' & attrs' & Hset & (H1 & H2 & H3)).
  exists h', attrs'. by split_and!.
Qed.

End Base.

End CollaboratorFacts.

Module EngineProperties.
Import Python CosseratRodFlowInteraction Numpy NumpyFacts RodState UpdateFacts PythonFacts
  EngineFacts ConstructFacts StepFacts ImmersedBody CollaboratorFacts.

(** C1. On the state of a constructed engine, [update_rod_element_position]
    returns [None] and overwrites, in place, the array the attribute
    [element_position] of the rod refers to: its entry [(i, j)] becomes
    [0.5 * (position_collection[i, j+1] + position_collection[i, j])] for
    every component [i] and every element [j]. *)
Theorem update_rod_element_position_midpoints (self rod epl : loc) (n : Z) (h : heap) :
  engine_inv self rod n epl h ->
  ∃ pcl pc ep',
    rod_array h self "position_collection" = Some (pcl, pc) ∧
    update_rod_element_position self h = Return tt (<[epl := ONdarray ep']> h) ∧
    rod_array (<[epl := ONdarray ep']> h) self "element_position" = Some (epl, ep') ∧
    arr_shape ep' = (3%nat, Z.to_nat n) ∧
    ∀ i j : nat, (i < 3)%nat -> (j < Z.to_nat n)%nat ->
      ∃ hi lo,
        arr_get pc i (j + 1) = Some hi ∧ arr_get pc i j = Some lo ∧
        arr_get ep' i j = Some (f_mul float64 half (f_add float64 hi lo)).
Proof.
  intros Hinv.
  destruct (update_on_engine _ _ _ _ _ Hinv) as (pcl & pc & Hpc & Hd & Hs & Hw & Hne & Hupd).
  exists pcl, pc, (midpoints pc). split_and!; try done.
  - assert (step self h (<[epl := ONdarray (midpoints pc)]> h)) as Hstep
      by (by apply step_update).
    destruct (rod_array_inv _ _ _ _ _ (engine_inv_step _ _ _ _ _ _ Hinv Hstep))
      as (ep & Hep & _).
    pose proof (rod_array_Some _ _ _ _ _ Hep) as Hl.
    rewrite lookup_insert_eq in Hl. by injection Hl as <-.
  - unfold midpoints. cbn [arr_shape]. rewrite Hs. cbn [fst snd]. f_equal. lia.
  - intros i j Hi Hj.
    destruct (arr_get_in_range pc i (j + 1) Hw) as [hi Hhi]; [rewrite Hs; cbn; lia..|].
    destruct (arr_get_in_range pc i j Hw) as [lo Hlo]; [rewrite Hs; cbn; lia..|].
    exists hi, lo. split_and!; [done..|]. by apply arr_get_midpoints.
Qed.

(** C10. On the state of a constructed engine, a second
    [update_rod_element_position] right after a first one returns [None]
    and leaves the store, and with it [element_position], as the first call
    left it. *)
Theorem update_rod_element_position_idempotent (self rod epl : loc) (n : Z) (h : heap) :
  engine_inv self rod n epl h ->
  ∃ h', update_rod_element_position self h = Return tt h' ∧
        update_rod_element_position self h' = Return tt h'.
Proof.
  intros Hinv.
  destruct (update_on_engine _ _ _ _ _ Hinv) as (pcl & pc & Hpc & _ & _ & _ & Hne & Hupd).
  eexists. split; [exact Hupd|].
  assert (engine_inv self rod n epl (<[epl := ONdarray (midpoints pc)]> h)) as Hinv'
    by (eapply engine_inv_step; [exact Hinv|by apply step_update]).
  destruct (update_on_engine _ _ _ _ _ Hinv') as (pcl' & pc' & Hpc' & _ & _ & _ & _ & Hupd').
  rewrite Hupd', insert_insert_eq.
  destruct (rod_array_inv _ _ _ _ _ Hinv) as (ep & Hep & _).
  apply rod_array_Some in Hep.
  rewrite (rod_array_overwrite_ne h self _ epl pcl ep _ pc Hep Hpc Hne) in Hpc'.
  by injection Hpc' as <- <-.
Qed.


Section Constructor.
Context `{FG : ForcingGridClass} {accepts : Z -> Z -> Prop} {FGok : ForcingGridOk FG accepts}.

(** C2. On a rod of [n_elems] elements the constructor makes two new
    arrays and hands them to the initialiser of the super class as the body
    force and torque accumulators: the forces of shape [(3, n_elems + 1)],
    one 3-vector per node, the torques of shape [(3, n_elems)], one
    3-vector per element, every entry zero. *)
Theorem accumulators_sized_and_zero (h : heap) (a : InitArgs) (n : Z) :
  rod_ok h (cosserat_rod a) n ->
  accepts (grid_dim a) n ->
  ∃ (self fg : loc) (h' : heap) (bf bt : loc) (forces torques : ndarray),
    (∀ SC : SuperClass,
       construct a h = finish self (super_init self (super_args a bf bt fg) h')) ∧
    h !! bf = None ∧ h !! bt = None ∧ bf ≠ bt ∧
    h' !! bf = Some (ONdarray forces) ∧
    h' !! bt = Some (ONdarray torques) ∧
    arr_shape forces = (3%nat, (Z.to_nat n + 1)%nat) ∧
    arr_shape torques = (3%nat, Z.to_nat n) ∧
    arr_data forces = replicate 3 (replicate (Z.to_nat n + 1) zero) ∧
    arr_data torques = replicate 3 (replicate (Z.to_nat n) zero).
Proof.
  intros Hrod Hacc.
  pose proof Hrod as (? & ? & pc & _ & _ & _ & _ & Hn0 & Hd & Hs & _ & Hrep).
  destruct (limits_of_nodes pc n Hn0 Hd Hs Hrep) as [Hlimf Hlimt].
  destruct (construct_reaches_super h a n Hrod Hacc)
    as (self & bf & bt & fg & zf & zt & h' & sattrs & _ & _ & Hzf & Hzt
        & Hbf & Hbt & Hbft & Hf & Ht & Hc).
  rewrite zeros_nonneg in Hzf, Hzt by first [lia | assumption].
  injection Hzf as <-. injection Hzt as <-.
  replace (Z.to_nat (n + 1)) with (Z.to_nat n + 1)%nat in Hf by lia.
  by eexists self, fg, h', bf, bt, _, _.
Qed.

(** C9. Whatever precision [real_t] is passed, single precision included,
    the body force and torque accumulators the constructor makes are
    float64 arrays: the two arrays handed to the super class are new
    objects, which the store passed in does not hold, allocated by the
    constructor as [np.zeros] without a dtype, hence float64; [real_t] is
    passed on to the super class as received and is not used for them. *)
Theorem accumulators_are_float64 (h : heap) (a : InitArgs) (n : Z) :
  rod_ok h (cosserat_rod a) n ->
  accepts (grid_dim a) n ->
  ∃ (self fg : loc) (h' : heap) (bf bt : loc) (forces torques : ndarray),
    (∀ SC : SuperClass,
       construct a h = finish self (super_init self (super_args a bf bt fg) h')) ∧
    sa_real_t (super_args a bf bt fg) = real_t a ∧
    h !! bf = None ∧ h !! bt = None ∧ bf ≠ bt ∧
    zeros (3, n + 1) None = Some forces ∧
    zeros (3, n) None = Some torques ∧
    h' !! bf = Some (ONdarray forces) ∧
    h' !! bt = Some (ONdarray torques) ∧
    arr_dtype forces = float64 ∧
    arr_dtype torques = float64.
Proof.
  intros Hrod Hacc.
  pose proof Hrod as (? & ? & pc & _ & _ & _ & _ & Hn0 & Hd & Hs & _ & Hrep).
  destruct (limits_of_nodes pc n Hn0 Hd Hs Hrep) as [Hlimf Hlimt].
  destruct (construct_reaches_super h a n Hrod Hacc)
    as (self & bf & bt & fg & zf & zt & h' & sattrs & _ & _ & Hzf & Hzt
        & Hbf & Hbt & Hbft & Hf & Ht & Hc).
  exists self, fg, h', bf, bt, zf, zt. split_and!; try done.
  - rewrite zeros_nonneg in Hzf by first [lia | assumption]. by injection Hzf as <-.
  - rewrite zeros_nonneg in Hzt by first [lia | assumption]. by injection Hzt as <-.
Qed.

Context `{SC : SuperClass} {saccepts : SuperArgs -> Prop} {SCok : SuperOk SC saccepts}.

(** The update on a state of the engine changes the contents of the
    element-position array and nothing else. *)
Lemma update_frame (self rod epl : loc) (n : Z) (h : heap) :
  engine_inv self rod n epl h ->
  ∃ h', update_rod_element_position self h = Return tt h' ∧
        ∀ l, l ≠ epl -> h' !! l = h !! l.
Proof.
  intros Hinv.
  destruct (update_on_engine _ _ _ _ _ Hinv) as (pcl & pc & _ & _ & _ & _ & _ & Hupd).
  eexists. split; [exact Hupd|]. intros l Hl. by rewrite lookup_insert_ne.
Qed.



(** C7. The array [element_position] is allocated by the constructor with
    shape [(3, n_elems)]; after any sequence of updates and of moves of the
    body the attribute still refers to that same array, its shape is
    [(3, n_elems)], and a further update returns. *)
Theorem element_position_shape_fixed (h : heap) (a : InitArgs) (n : Z) :
  rod_ok h (cosserat_rod a) n ->
  accepts (grid_dim a) n ->
  (∀ bf bt fg, saccepts (super_args a bf bt fg)) ->
  ∃ (self epl : loc) (h1 : heap),
    construct a h = Return self h1 ∧
    h !! epl = None ∧
    ∀ h2, rtc (step self) h1 h2 ->
      (∃ ep, rod_array h2 self "element_position" = Some (epl, ep) ∧
             arr_shape ep = (3%nat, Z.to_nat n)) ∧
      ∃ h3, update_rod_element_position self h2 = Return tt h3.
Proof.
  intros Hrod Hacc Hsacc.
  destruct (construct_spec h a n Hrod Hacc Hsacc)
    as (self & epl & h1 & attrs & Hc & Hself & Hepl & Hr & Hr1 & Hinv & Hframe).
  exists self, epl, h1. split_and!; try done.
  intros h2 Hsteps.
  pose proof (engine_inv_steps _ _ _ _ _ _ Hinv Hsteps) as Hinv2.
  split.
  - destruct (rod_array_inv _ _ _ _ _ Hinv2) as (ep & Hep & _ & Hs). by exists ep.
  - destruct (update_on_engine _ _ _ _ _ Hinv2) as (? & ? & _ & _ & _ & _ & _ & Hupd).
    eauto.
Qed.

End Constructor.

End EngineProperties.

Module ValidationProperties.
Import Python CosseratRodFlowInteraction Numpy NumpyFacts RodState UpdateFacts PythonFacts
  EngineFacts ConstructFacts StepFacts ImmersedBody CollaboratorFacts.

Section Validation.
Context `{FG : ForcingGridClass} {accepts : Z -> Z -> Prop} {FGok : ForcingGridOk FG accepts}.

Variable kernel_width_compatible : option Z -> spec_float -> bool.

(** C4. With the initialiser of the coupling engine as the specification
    describes it, constructing the flow interaction on a well-formed rod
    with a stiffness or a damping coefficient that is not non-positive
    raises [ConfigurationError] for the sign convention; with both
    coefficients non-positive it raises no such error, and it returns when
    the kernel width is compatible with the grid spacing. *)
Theorem construction_validates_sign_convention (h : heap) (a : InitArgs) (n : Z) :
  rod_ok h (cosserat_rod a) n ->
  accepts (grid_dim a) n ->
  let stiffness := virtual_boundary_stiffness_coeff a in
  let damping := virtual_boundary_damping_coeff a in
  let construct_a := construct (SC := engine_base kernel_width_compatible) a in
  (sign_convention stiffness damping = false ->
     ∃ h', construct_a h = Raise (ConfigurationError SignConvention) h') ∧
  (sign_convention stiffness damping = true ->
     (∀ h', construct_a h ≠ Raise (ConfigurationError SignConvention) h') ∧
     (kernel_width_compatible (interp_kernel_width a) (dx a) = true ->
        ∃ self h', construct_a h = Return self h')).
Proof.
  intros Hrod Hacc stiffness damping construct_a.
  destruct (construct_reaches_super h a n Hrod Hacc)
    as (self & bf & bt & fg & zf & zt & h' & sattrs & _ & Hself & _ & _ & _ & _ & _ & _ & _ & Hc).
  unfold construct_a. rewrite (Hc (engine_base kernel_width_compatible)).
  cbn [super_init engine_base]. split.
  - intros Hsign. unfold ImmersedBodyFlowInteraction_init.
    cbn [super_args sa_virtual_boundary_stiffness_coeff sa_virtual_boundary_damping_coeff].
    fold stiffness damping. rewrite Hsign. cbn [negb finish]. by exists h'.
  - intros Hsign. split.
    + intros h''. unfold ImmersedBodyFlowInteraction_init at 1.
      cbn [super_args sa_virtual_boundary_stiffness_coeff sa_virtual_boundary_damping_coeff
           sa_interp_kernel_width sa_dx].
      fold stiffness damping. rewrite Hsign. cbn [negb].
      destruct (kernel_width_compatible _ _) eqn:Hkw; cbn [negb]; [|done].
      destruct (engine_base_ok kernel_width_compatible h' self (super_args a bf bt fg) sattrs)
        as (h8 & attrs' & Hsuper & _); [done|by split|].
      cbn [super_init engine_base] in Hsuper.
      unfold ImmersedBodyFlowInteraction_init in Hsuper.
      cbn [super_args sa_virtual_boundary_stiffness_coeff sa_virtual_boundary_damping_coeff
           sa_interp_kernel_width sa_dx] in Hsuper.
      fold stiffness damping in Hsuper. rewrite Hsign, Hkw in Hsuper. cbn [negb] in Hsuper.
      by rewrite Hsuper.
    + intros Hkw.
      destruct (engine_base_ok kernel_width_compatible h' self (super_args a bf bt fg) sattrs)
        as (h8 & attrs' & Hsuper & _); [done|by split|].
      cbn [super_init engine_base] in Hsuper. rewrite Hsuper. by exists self, h8.
Qed.

End Validation.
End ValidationProperties.

Module DriverProperties.
Import FlowPastSphereCase.

Section Driver.
Context {real world : Type} `{Num : Numeric real} `{Col : Collaborators real world}.

(** One iteration, run: what it leaves in every variable, what it does to
    the collaborators and the calls it makes. *)
Lemma loop_body_run (c : consts) (s : state) :
  ∃ dt w1,
    compute_stable_timestep (literal 0.25) (w s) = (dt, w1) ∧
    loop_body c s =
      {| t := add (t s) dt;
         foto_timer := add (if snapshot_due c s then literal 0 else foto_timer s) dt;
         time := time s ++ (if snapshot_due c s then [t s] else []);
         drag_coeffs :=
           drag_coeffs s ++ (if snapshot_due c s then [drag_coeff_of c (w s)] else []);
         w := flow_sim_time_step dt (c_velocity_free_stream c)
                (interactor_call (interactor_time_step dt w1));
         trace := trace s ++
                  [(if snapshot_due c s
                    then (if c_save_data c
                          then [EvIoSave (t s); EvSphereIoSave (t s)] else [])
                         ++ [EvSaveFigure (t s); EvPrint (t s) (drag_coeff_of c (w s))]
                    else []) ++
                   [EvComputeStableTimestep dt; EvInteractorTimeStep dt;
                    EvInteractorCall; EvFlowSimTimeStep dt]] |}.
Proof.
  destruct (compute_stable_timestep (literal 0.25) (w s)) as [dt w1] eqn:Hdt.
  exists dt, w1. split; [done|].
  unfold loop_body, iteration, snapshot_due.
  destruct (ltb (c_foto_timer_limit c) (foto_timer s) || eqb (foto_timer s) (literal 0)).
  - unfold snapshot. destruct (c_save_data c); cbn; rewrite Hdt; cbn;
      by rewrite ?app_nil_r.
  - cbn. rewrite Hdt. cbn. by rewrite ?app_nil_r.
Qed.

Lemma loop_body_trace (c : consts) (s : state) :
  ∃ evs, trace (loop_body c s) = trace s ++ [evs] ∧ couples_once evs.
Proof.
  destruct (loop_body_run c s) as (dt & w1 & _ & ->). cbn [trace].
  eexists. split; [reflexivity|]. exists dt. split.
  - apply in_or_app. right. by left.
  - rewrite List.filter_app.
    destruct (snapshot_due c s); [|reflexivity].
    destruct (c_save_data c); reflexivity.
Qed.

(** What one iteration does to the collaborators: the stable time step is
    computed, the interactor is stepped by it and then applied, and then
    the flow simulator is stepped by it. *)
Lemma loop_body_world (c : consts) (s : state) :
  ∃ dt w1,
    compute_stable_timestep (literal 0.25) (w s) = (dt, w1) ∧
    w (loop_body c s) =
      flow_sim_time_step dt (c_velocity_free_stream c)
        (interactor_call (interactor_time_step dt w1)).
Proof.
  destruct (loop_body_run c s) as (dt & w1 & Hdt & ->). by exists dt, w1.
Qed.

Lemma loop_trace (fuel : nat) (c : consts) (s : state) :
  ∃ iterations,
    trace (loop fuel c s) = trace s ++ iterations ∧
    length iterations = length (loop_heads fuel c s) ∧
    Forall couples_once iterations.
Proof.
  revert s. induction fuel as [|fuel IH]; intros s.
  - exists []. by rewrite app_nil_r.
  - cbn [loop loop_heads]. destruct (ltb (t s) (c_t_end c)).
    + destruct (loop_body_trace c s) as (evs & Hevs & Hc).
      destruct (IH (loop_body c s)) as (its & Hits & Hlen & Hall).
      exists (evs :: its). split_and!.
      * by rewrite Hits, Hevs, <-app_assoc.
      * cbn. by rewrite Hlen.
      * by constructor.
    + exists []. by rewrite app_nil_r.
Qed.

Lemma setup_initial (p : params) (c : consts) (s0 : state) :
  setup p = Some (c, s0) ->
  ∃ d, sphere_diameter p = Some d ∧
       c_drag_force_scale c = drag_force_scale d ∧
       time s0 = [] ∧ drag_coeffs s0 = [] ∧ trace s0 = [].
Proof.
  unfold setup. intros Hsetup.
  destruct (sphere_diameter p) as [d|]; [|done]. cbn [mbind option_bind] in Hsetup.
  destruct (py_div (mul far_field_velocity d) (reynolds p)) as [nu|]; [|done].
  cbn [mbind option_bind] in Hsetup.
  destruct (py_div d (literal 2)) as [half_d|]; [|done].
  cbn [mbind option_bind] in Hsetup.
  destruct (py_div d far_field_velocity) as [timescale|]; [|done].
  cbn [mbind option_bind] in Hsetup.
  destruct (py_div _ (of_Z 40)) as [limit|]; [|done].
  cbn [mbind option_bind] in Hsetup.
  injection Hsetup as <- <-. by exists d.
Qed.

(** C5. In a run of the driver every iteration of the loop makes exactly
    two calls on the flow interactor: [time_step(dt)] with the time step
    computed in that iteration, once, and then the call of the interactor,
    once. The calls recorded are those the body of the loop makes, and the
    collaborators are left by every iteration as these calls leave them:
    stepped by [dt], then applied, once each, before the flow simulator is
    stepped. *)
Theorem interactor_stepped_then_applied_once (fuel : nat) (p : params) (s : state) :
  flow_past_sphere_case fuel p = Some s ->
  ∃ c s0,
    setup p = Some (c, s0) ∧
    length (trace s) = length (loop_heads fuel c s0) ∧
    Forall couples_once (trace s) ∧
    Forall (λ s', ∃ dt w1,
              compute_stable_timestep (literal 0.25) (w s') = (dt, w1) ∧
              w (loop_body c s') =
                flow_sim_time_step dt (c_velocity_free_stream c)
                  (interactor_call (interactor_time_step dt w1)))
           (loop_heads fuel c s0).
Proof.
  unfold flow_past_sphere_case. intros Hrun.
  destruct (setup p) as [[c s0]|] eqn:Hsetup; [|done].
  cbn [mbind option_bind] in Hrun. injection Hrun as <-.
  exists c, s0. split; [done|].
  destruct (loop_trace fuel c s0) as (its & Hits & Hlen & Hall).
  destruct (setup_initial p c s0 Hsetup) as (d & _ & _ & _ & _ & Hnil).
  rewrite Hits, Hnil. split_and!; [done..|].
  apply Forall_forall. intros s' _. apply loop_body_world.
Qed.


Lemma loop_body_records (c : consts) (s : state) :
  time (loop_body c s) = time s ++ (if snapshot_due c s then [t s] else []) ∧
  drag_coeffs (loop_body c s)
    = drag_coeffs s ++ (if snapshot_due c s then [drag_coeff_of c (w s)] else []).
Proof.
  by destruct (loop_body_run c s) as (dt & w1 & _ & ->).
Qed.

Lemma loop_records (fuel : nat) (c : consts) (s : state) :
  let recorded := List.filter (snapshot_due c) (loop_heads fuel c s) in
  time (loop fuel c s) = time s ++ map t recorded ∧
  drag_coeffs (loop fuel c s)
    = drag_coeffs s ++ map (λ s', drag_coeff_of c (w s')) recorded.
Proof.
  revert s. induction fuel as [|fuel IH]; intros s.
  - cbn. by rewrite !app_nil_r.
  - cbn [loop loop_heads]. destruct (ltb (t s) (c_t_end c)).
    + destruct (IH (loop_body c s)) as [Ht Hd].
      destruct (loop_body_records c s) as [Ht1 Hd1].
      cbn zeta in *. rewrite Ht, Hd, Ht1, Hd1. cbn [List.filter].
      destruct (snapshot_due c s); cbn [map]; by rewrite <-!app_assoc.
    + cbn. by rewrite !app_nil_r.
Qed.

(** C6. Every drag coefficient the driver records, at a time it records
    too, is [fabs(sum(lag_grid_forcing_field[0, ...]))], the forcing field
    being the one of the flow interactor at the head of that iteration,
    divided by [0.5 * rho_f * far_field_velocity**2 * sphere_projected_area],
    where [sphere_projected_area = 0.25 * pi * sphere_diameter**2]. *)
Theorem recorded_drag_coefficient (fuel : nat) (p : params) (s : state) :
  flow_past_sphere_case fuel p = Some s ->
  ∃ c s0 d,
    setup p = Some (c, s0) ∧
    sphere_diameter p = Some d ∧
    let recorded := List.filter (snapshot_due c) (loop_heads fuel c s0) in
    let sphere_projected_area := mul (mul (literal 0.25) np_pi) (pow d 2) in
    time s = map t recorded ∧
    drag_coeffs s =
      map (λ s', div (np_fabs (np_sum (lag_grid_forcing_field (w s') 0%nat)))
                     (mul (mul (mul (literal 0.5) rho_f) (pow far_field_velocity 2))
                          sphere_projected_area))
          recorded.
Proof.
  unfold flow_past_sphere_case. intros Hrun.
  destruct (setup p) as [[c s0]|] eqn:Hsetup; [|done].
  cbn [mbind option_bind] in Hrun. injection Hrun as <-.
  destruct (setup_initial p c s0 Hsetup) as (d & Hd & Hscale & Htime & Hdrag & _).
  exists c, s0, d. split; [done|]. split; [done|].
  destruct (loop_records fuel c s0) as [Ht Hdc]. cbn zeta in *.
  rewrite Ht, Hdc, Htime, Hdrag. split; [done|].
  cbn [app]. apply map_ext. intros s'. unfold drag_coeff_of. by rewrite Hscale.
Qed.

End Driver.
End DriverProperties.

Module ForcingProperties.
Import ImmersedBody.

Lemma no_mismatch (v : vec) : vzip Qcminus v v = replicate (length v) 0%Qc.
Proof.
  unfold vzip. induction v as [|x v IH]; [done|].
  cbn [zip_with length replicate]. rewrite IH. f_equal. ring.
Qed.

Lemma forcing_at_rest (stiffness damping : Qc) (d : nat) :
  vzip (λ e m, stiffness * e + damping * m)%Qc (replicate d 0%Qc) (replicate d 0%Qc)
  = replicate d 0%Qc.
Proof. unfold vzip. rewrite zip_with_replicate. f_equal; ring. Qed.

Lemma error_at_rest (dt : Qc) (d : nat) :
  vzip (λ e m, e + m * dt)%Qc (replicate d 0%Qc) (replicate d 0%Qc) = replicate d 0%Qc.
Proof. unfold vzip. rewrite zip_with_replicate. f_equal; ring. Qed.

(** C8. For every marker whose velocity equals the fluid velocity
    interpolated at it and whose accumulated displacement error is zero, the
    forcing the feedback law computes is zero in every component, before
    the integrator has advanced the displacement errors and after. *)
Theorem zero_mismatch_zero_forcing (stiffness damping dt : Qc)
    (ms : list marker) (i : nat) (m : marker) :
  ms !! i = Some m ->
  marker_velocity m = interpolated_velocity m ->
  displacement_error m = replicate (length (marker_velocity m)) 0%Qc ->
  compute_forcing stiffness damping ms !! i
    = Some (replicate (length (marker_velocity m)) 0%Qc) ∧
  compute_forcing stiffness damping (advance dt ms) !! i
    = Some (replicate (length (marker_velocity m)) 0%Qc).
Proof.
  intros Hm Hv Herr. unfold compute_forcing, advance.
  rewrite !list_lookup_fmap, Hm. cbn [fmap option_fmap option_map].
  cbn [displacement_error marker_velocity interpolated_velocity].
  unfold advance_displacement_error, marker_forcing.
  rewrite <-Hv, Herr, no_mismatch, error_at_rest, forcing_at_rest. done.
Qed.

End ForcingProperties.

Module ScenarioFacts.
Import Python CosseratRodFlowInteraction Numpy RodState ImmersedBody Scenario
  CollaboratorFacts EngineProperties ValidationProperties DriverProperties ForcingProperties.

#[local] Existing Instances binary64 counting.

Lemma h0_rod_ok : rod_ok h0 0%nat 2.
Proof.
  exists rod_attrs, 1%nat, nodes.
  split_and!;
    [vm_compute; reflexivity..|lia|reflexivity|reflexivity|reflexivity|reflexivity].
Qed.

Lemma h_engine_inv : engine_inv 3%nat 0%nat 2 2%nat h_engine.
Proof.
  split_and!.
  - exists engine_attrs. split; vm_compute; reflexivity.
  - exists engine_rod_attrs, 1%nat, nodes.
    split_and!;
      [vm_compute; reflexivity..|lia|reflexivity|reflexivity|reflexivity|reflexivity].
  - exists engine_rod_attrs, element_zeros.
    split_and!; vm_compute; reflexivity.
Qed.

Lemma grid_accepts_example : rod_grid_accepts 3 2.
Proof. split_and!; [lia|by right|reflexivity]. Qed.

Lemma base_accepts_restoring (bf bt fg : loc) :
  engine_base_accepts kernel_always_compatible (super_args args_restoring bf bt fg).
Proof. split; reflexivity. Qed.

(** The update evaluated on the example engine. *)
Example update_example :
  update_rod_element_position 3%nat h_engine
  = Return tt (<[2%nat := ONdarray element_midpoints]> h_engine).
Proof. vm_compute. reflexivity. Qed.

(** Where the node array does not have one column more than the element
    array: four midpoints do not fit two elements and numpy raises; a
    single midpoint is broadcast to both. Without an engine attached there
    is no attribute to read. *)
Example update_five_nodes :
  update_rod_element_position 3%nat (<[1%nat := ONdarray five_nodes]> h_engine)
  = Raise ValueError (<[1%nat := ONdarray five_nodes]> h_engine).
Proof. vm_compute. reflexivity. Qed.

Example update_two_nodes :
  update_rod_element_position 3%nat (<[1%nat := ONdarray two_nodes]> h_engine)
  = Return tt (<[2%nat := ONdarray element_twos]> (<[1%nat := ONdarray two_nodes]> h_engine)).
Proof. vm_compute. reflexivity. Qed.

Example update_without_engine :
  update_rod_element_position 3%nat h0 = Raise (AttributeError "cosserat_rod") h0.
Proof. vm_compute. reflexivity. Qed.

Lemma update_rod_element_position_midpoints_witness :
  engine_inv 3%nat 0%nat 2 2%nat h_engine ∧
  ∃ pcl pc ep',
    rod_array h_engine 3%nat "position_collection" = Some (pcl, pc) ∧
    update_rod_element_position 3%nat h_engine
      = Return tt (<[2%nat := ONdarray ep']> h_engine) ∧
    rod_array (<[2%nat := ONdarray ep']> h_engine) 3%nat "element_position"
      = Some (2%nat, ep') ∧
    arr_shape ep' = (3%nat, Z.to_nat 2) ∧
    ∀ i j : nat, (i < 3)%nat -> (j < Z.to_nat 2)%nat ->
      ∃ hi lo,
        arr_get pc i (j + 1) = Some hi ∧ arr_get pc i j = Some lo ∧
        arr_get ep' i j = Some (f_mul float64 half (f_add float64 hi lo)).
Proof.
  split; [exact h_engine_inv|].
  exact (update_rod_element_position_midpoints 3%nat 0%nat 2%nat 2 h_engine h_engine_inv).
Defined.

Lemma update_rod_element_position_idempotent_witness :
  engine_inv 3%nat 0%nat 2 2%nat h_engine ∧
  ∃ h', update_rod_element_position 3%nat h_engine = Return tt h' ∧
        update_rod_element_position 3%nat h' = Return tt h'.
Proof.
  split; [exact h_engine_inv|].
  exact (update_rod_element_position_idempotent 3%nat 0%nat 2%nat 2 h_engine h_engine_inv).
Defined.

Lemma accumulators_sized_and_zero_witness :
  ∃ (self fg : loc) (h' : heap) (bf bt : loc) (forces torques : ndarray),
    (∀ SC : SuperClass,
       construct (FG := rod_grid) args_restoring h0
       = finish self (super_init self (super_args args_restoring bf bt fg) h')) ∧
    h0 !! bf = None ∧ h0 !! bt = None ∧ bf ≠ bt ∧
    h' !! bf = Some (ONdarray forces) ∧
    h' !! bt = Some (ONdarray torques) ∧
    arr_shape forces = (3%nat, (Z.to_nat 2 + 1)%nat) ∧
    arr_shape torques = (3%nat, Z.to_nat 2) ∧
    arr_data forces = replicate 3 (replicate (Z.to_nat 2 + 1) zero) ∧
    arr_data torques = replicate 3 (replicate (Z.to_nat 2) zero).
Proof.
  apply (accumulators_sized_and_zero (FG := rod_grid) (accepts := rod_grid_accepts)
           (FGok := rod_grid_ok) h0 args_restoring 2).
  - exact h0_rod_ok.
  - exact grid_accepts_example.
Defined.

Lemma accumulators_are_float64_witness :
  real_t args_restoring = float32 ∧
  ∃ (self fg : loc) (h' : heap) (bf bt : loc) (forces torques : ndarray),
    (∀ SC : SuperClass,
       construct (FG := rod_grid) args_restoring h0
       = finish self (super_init self (super_args args_restoring bf bt fg) h')) ∧
    sa_real_t (super_args args_restoring bf bt fg) = real_t args_restoring ∧
    h0 !! bf = None ∧ h0 !! bt = None ∧ bf ≠ bt ∧
    zeros (3, 2 + 1) None = Some forces ∧
    zeros (3, 2) None = Some torques ∧
    h' !! bf = Some (ONdarray forces) ∧
    h' !! bt = Some (ONdarray torques) ∧
    arr_dtype forces = float64 ∧
    arr_dtype torques = float64.
Proof.
  split; [reflexivity|].
  apply (accumulators_are_float64 (FG := rod_grid) (accepts := rod_grid_accepts)
           (FGok := rod_grid_ok) h0 args_restoring 2).
  - exact h0_rod_ok.
  - exact grid_accepts_example.
Defined.



Lemma element_position_shape_fixed_witness :
  ∃ (self epl : loc) (h1 : heap),
    construct (FG := rod_grid) (SC := engine_base kernel_always_compatible)
      args_restoring h0 = Return self h1 ∧
    h0 !! epl = None ∧
    ∀ h2, rtc (step self) h1 h2 ->
      (∃ ep, rod_array h2 self "element_position" = Some (epl, ep) ∧
             arr_shape ep = (3%nat, Z.to_nat 2)) ∧
      ∃ h3, update_rod_element_position self h2 = Return tt h3.
Proof.
  apply (element_position_shape_fixed
           (FG := rod_grid) (accepts := rod_grid_accepts) (FGok := rod_grid_ok)
           (SC := engine_base kernel_always_compatible)
           (saccepts := engine_base_accepts kernel_always_compatible)
           (SCok := engine_base_ok kernel_always_compatible)
           h0 args_restoring 2).
  - exact h0_rod_ok.
  - exact grid_accepts_example.
  - exact base_accepts_restoring.
Defined.

(** The two constructions evaluated. *)
Example wrong_sign_raises :
  ∃ h', construct (FG := rod_grid) (SC := engine_base kernel_always_compatible)
          args_wrong_sign h0 = Raise (ConfigurationError SignConvention) h'.
Proof. eexists. vm_compute. reflexivity. Qed.

Example restoring_returns :
  ∃ h', construct (FG := rod_grid) (SC := engine_base kernel_always_compatible)
          args_restoring h0 = Return 4%nat h'.
Proof. eexists. vm_compute. reflexivity. Qed.

Lemma construction_validates_sign_convention_witness :
  (∃ h', construct (FG := rod_grid) (SC := engine_base kernel_always_compatible)
           args_wrong_sign h0 = Raise (ConfigurationError SignConvention) h') ∧
  (∃ self h', construct (FG := rod_grid) (SC := engine_base kernel_always_compatible)
                args_restoring h0 = Return self h').
Proof.
  split.
  - apply (construction_validates_sign_convention
             (FG := rod_grid) (accepts := rod_grid_accepts) (FGok := rod_grid_ok)
             kernel_always_compatible h0 args_wrong_sign 2 h0_rod_ok grid_accepts_example).
    reflexivity.
  - apply (construction_validates_sign_convention
             (FG := rod_grid) (accepts := rod_grid_accepts) (FGok := rod_grid_ok)
             kernel_always_compatible h0 args_restoring 2 h0_rod_ok grid_accepts_example);
      reflexivity.
Defined.

(** The feedback law evaluated on the slipping marker: the pure damping
    term at first, the stiffness term added once the displacement error has
    been advanced by a step of 0.01; and no forcing on the marker at rest. *)
Example compute_forcing_example :
  compute_forcing (Q2Qc (-100)) (Q2Qc (-10)) [marker_at_rest; marker_slipping]
    = [[0; 0; 0]%Qc; [Q2Qc (-10); 0; 0]%Qc] ∧
  compute_forcing (Q2Qc (-100)) (Q2Qc (-10))
                  (advance (Q2Qc 0.01) [marker_at_rest; marker_slipping])
    = [[0; 0; 0]%Qc; [Q2Qc (-11); 0; 0]%Qc].
Proof. split; vm_compute; repeat f_equal; apply Qc_is_canon; reflexivity. Qed.

Lemma zero_mismatch_zero_forcing_witness :
  compute_forcing (Q2Qc (-100)) (Q2Qc (-10)) [marker_slipping; marker_at_rest] !! 1%nat
    = Some (replicate 3 0%Qc) ∧
  compute_forcing (Q2Qc (-100)) (Q2Qc (-10))
                  (advance (Q2Qc 0.01) [marker_slipping; marker_at_rest]) !! 1%nat
    = Some (replicate 3 0%Qc).
Proof.
  apply (zero_mismatch_zero_forcing (Q2Qc (-100)) (Q2Qc (-10)) (Q2Qc 0.01)
           [marker_slipping; marker_at_rest] 1%nat marker_at_rest);
    reflexivity.
Defined.

(** The driver run on the small case: four iterations, each recording a
    drag coefficient. *)
Example small_case_runs :
  ∃ s, FlowPastSphereCase.flow_past_sphere_case (Num := binary64) (Col := counting)
         10 small_case = Some s ∧
       length (FlowPastSphereCase.trace s) = 4%nat ∧
       length (FlowPastSphereCase.drag_coeffs s) = 4%nat.
Proof. eexists. split; [vm_compute; reflexivity|]. split; reflexivity. Qed.

Lemma interactor_stepped_then_applied_once_witness :
  ∃ s, FlowPastSphereCase.flow_past_sphere_case (Num := binary64) (Col := counting)
         10 small_case = Some s ∧
  ∃ c s0,
    FlowPastSphereCase.setup small_case = Some (c, s0) ∧
    length (FlowPastSphereCase.trace s)
      = length (FlowPastSphereCase.loop_heads 10 c s0) ∧
    Forall FlowPastSphereCase.couples_once (FlowPastSphereCase.trace s) ∧
    Forall (λ s', ∃ dt w1,
              FlowPastSphereCase.compute_stable_timestep
                (FlowPastSphereCase.literal 0.25) (FlowPastSphereCase.w s') = (dt, w1) ∧
              FlowPastSphereCase.w (FlowPastSphereCase.loop_body c s') =
                FlowPastSphereCase.flow_sim_time_step dt
                  (FlowPastSphereCase.c_velocity_free_stream c)
                  (FlowPastSphereCase.interactor_call
                     (FlowPastSphereCase.interactor_time_step dt w1)))
           (FlowPastSphereCase.loop_heads 10 c s0).
Proof.
  destruct (FlowPastSphereCase.flow_past_sphere_case (Num := binary64) (Col := counting)
              10 small_case) as [s|] eqn:Hrun.
  - exists s. split; [reflexivity|].
    exact (interactor_stepped_then_applied_once 10 small_case s Hrun).
  - vm_compute in Hrun. discriminate.
Defined.

Lemma recorded_drag_coefficient_witness :
  ∃ s, FlowPastSphereCase.flow_past_sphere_case (Num := binary64) (Col := counting)
         10 small_case = Some s ∧
  ∃ c s0 d,
    FlowPastSphereCase.setup small_case = Some (c, s0) ∧
    FlowPastSphereCase.sphere_diameter small_case = Some d ∧
    let recorded :=
      List.filter (FlowPastSphereCase.snapshot_due c)
                  (FlowPastSphereCase.loop_heads 10 c s0) in
    let sphere_projected_area :=
      FlowPastSphereCase.mul
        (FlowPastSphereCase.mul (FlowPastSphereCase.literal 0.25) FlowPastSphereCase.np_pi)
        (FlowPastSphereCase.pow d 2) in
    FlowPastSphereCase.time s = map FlowPastSphereCase.t recorded ∧
    FlowPastSphereCase.drag_coeffs s =
      map (λ s', FlowPastSphereCase.div
                   (FlowPastSphereCase.np_fabs
                      (FlowPastSphereCase.np_sum
                         (FlowPastSphereCase.lag_grid_forcing_field
                            (FlowPastSphereCase.w s') 0%nat)))
                   (FlowPastSphereCase.mul
                      (FlowPastSphereCase.mul
                         (FlowPastSphereCase.mul (FlowPastSphereCase.literal 0.5)
                                                 FlowPastSphereCase.rho_f)
                         (FlowPastSphereCase.pow FlowPastSphereCase.far_field_velocity 2))
                      sphere_projected_area))
          recorded.
Proof.
  destruct (FlowPastSphereCase.flow_past_sphere_case (Num := binary64) (Col := counting)
              10 small_case) as [s|] eqn:Hrun.
  - exists s. split; [reflexivity|].
    exact (recorded_drag_coefficient 10 small_case s Hrun).
  - vm_compute in Hrun. discriminate.
Defined.

End ScenarioFacts.

(** * The update beyond a constructed engine *)

Module UpdateEdges.
Import Python CosseratRodFlowInteraction Numpy NumpyFacts RodState UpdateFacts PythonFacts
  EngineFacts StepFacts.

(** What [rod_array] and [rod_attr] read, object by object. *)
Lemma rod_attr_chain (h : heap) (self : loc) (name : string) (v : value) :
  rod_attr h self name = Some v ->
  ∃ sattrs rod rattrs,
    h !! self = Some (OInstance sattrs) ∧
    sattrs !! "cosserat_rod" = Some (VRef rod) ∧
    h !! rod = Some (OInstance rattrs) ∧
    rattrs !! name = Some v.
Proof.
  unfold rod_attr, instance_of. intros Hra.
  destruct (h !! self) as [[|sattrs]|] eqn:Hself; try done. cbn in Hra.
  destruct (sattrs !! "cosserat_rod") as [rodv|] eqn:Hrod; [|done]. cbn in Hra.
  destruct rodv as [| | | | |rod]; try done.
  destruct (h !! rod) as [[|rattrs]|] eqn:Hr; try done. cbn in Hra.
  by exists sattrs, rod, rattrs.
Qed.

Lemma rod_array_attr (h : heap) (self : loc) (name : string) (l : loc) (a : ndarray) :
  rod_array h self name = Some (l, a) ↔
  rod_attr h self name = Some (VRef l) ∧ h !! l = Some (ONdarray a).
Proof.
  unfold rod_array, rod_attr.
  destruct (instance_of h (VRef self)) as [[? sattrs]|]; cbn; [|by split; [|intros []]].
  destruct (sattrs !! "cosserat_rod") as [rodv|]; cbn; [|by split; [|intros []]].
  destruct (instance_of h rodv) as [[? rattrs]|]; cbn; [|by split; [|intros []]].
  destruct (rattrs !! name) as [v|]; cbn; [|by split; [|intros []]].
  destruct v as [| | | | |l']; try (by split; [|intros []]).
  split.
  - destruct (h !! l') as [[a'|]|] eqn:E; try done. by intros [= <- <-].
  - intros [[= <-] ->]. done.
Qed.

(** The sum of the two slices always exists: they have the same shape. *)
Lemma add_slices (a : ndarray) :
  ∃ s, add (upper a) (lower a) = Some s ∧
       arr_shape s = arr_shape (upper a) ∧ arr_dtype s = arr_dtype a.
Proof.
  unfold add. rewrite upper_eq, lower_eq. cbn [arr_shape arr_dtype fst snd].
  rewrite !broadcast_dim_same. cbn [mbind option_bind].
  eexists. split; [reflexivity|]. cbn [arr_shape arr_dtype]. split; [done|].
  by destruct (arr_dtype a).
Qed.

(** The update, once the attributes are read: the sum of the slices, the
    product, the assignment. *)
Lemma update_unfold (h : heap) (self pcl : loc) (a : ndarray) :
  rod_array h self "position_collection" = Some (pcl, a) ->
  ∃ s, add (upper a) (lower a) = Some s ∧
    update_rod_element_position self h =
      match rod_attr h self "element_position" with
      | None => Raise (AttributeError "element_position") h
      | Some (VRef epl) =>
          match h !! epl with
          | Some (ONdarray t) =>
              match setitem_ellipsis t (rmul_scalar half s) with
              | Some t' => Return tt (<[epl := ONdarray t']> h)
              | None => Raise ValueError h
              end
          | _ => Raise TypeError h
          end
      | Some _ => Raise TypeError h
      end.
Proof.
  intros [Hattr Hpcl]%rod_array_attr.
  destruct (rod_attr_chain _ _ _ _ Hattr) as (sattrs & rod & rattrs & Hself & Hrod & Hr & Hpc).
  destruct (add_slices a) as (s & Hadd & _). exists s. split; [done|].
  unfold update_rod_element_position.
  repeat first
    [ erewrite bind_return; [|by eapply getattr_instance]
    | erewrite bind_return; [|by eapply as_ndarray_ref]
    | progress cbn beta iota zeta ].
  unfold upper, lower in Hadd. rewrite Hadd. unfold lift at 1.
  erewrite bind_return; [|reflexivity].
  erewrite bind_return; [|by eapply getattr_instance].
  unfold rod_attr, instance_of. rewrite Hself. cbn [mbind option_bind].
  rewrite Hrod. cbn [mbind option_bind]. rewrite Hr. cbn [mbind option_bind].
  destruct (rattrs !! "element_position") as [v|] eqn:Hep.
  - erewrite bind_return; [|by eapply getattr_instance].
    destruct v as [| | | | |epl]; try done.
    destruct (h !! epl) as [[t|]|] eqn:Hepl.
    + erewrite bind_return; [|by eapply as_ndarray_ref]. cbn beta iota zeta.
      destruct (setitem_ellipsis t _) as [t'|]; [|done].
      unfold lift. by erewrite bind_return; [|reflexivity].
    + unfold mbind, M_bind, bind, as_ndarray. by rewrite Hepl.
    + unfold mbind, M_bind, bind, as_ndarray. by rewrite Hepl.
  - unfold mbind, M_bind, bind, getattr, instance_of. by rewrite Hr, Hep.
Qed.


(** The right-hand side on a well-shaped node array of any precision. *)
Lemma rhs_midpoints_in (pc : ndarray) :
  well_shaped pc = true ->
  rmul_scalar half <$> add (upper pc) (lower pc) = Some (midpoints_in pc).
Proof.
  intros Hw.
  pose proof (well_shaped_upper pc Hw) as Hu.
  pose proof (well_shaped_lower pc Hw) as Hl.
  assert (arr_shape (upper pc) = (fst (arr_shape pc), (snd (arr_shape pc) - 1)%nat)) as Hsu
    by (by rewrite upper_eq).
  assert (arr_shape (lower pc) = (fst (arr_shape pc), (snd (arr_shape pc) - 1)%nat)) as Hsl
    by (by rewrite lower_eq).
  assert (arr_dtype (upper pc) = arr_dtype pc) as Hdu by (by rewrite upper_eq).
  assert (arr_dtype (lower pc) = arr_dtype pc) as Hdl by (by rewrite lower_eq).
  assert (arr_data (upper pc) = drop 1 <$> arr_data pc) as Hau by (by rewrite upper_eq).
  assert (arr_data (lower pc) =
          (λ row : list spec_float, take (length row - 1) row) <$> arr_data pc) as Hal
    by (by rewrite lower_eq).
  assert (promote (arr_dtype pc) (arr_dtype pc) = arr_dtype pc) as Hp
    by (by destruct (arr_dtype pc)).
  unfold add. rewrite Hsu, Hsl, Hdu, Hdl, Hp. cbn [fst snd].
  rewrite !broadcast_dim_same. cbn [mbind option_bind].
  rewrite !broadcast_data_same by done.
  rewrite Hau, Hal, zip_rows.
  unfold rmul_scalar, midpoints_in, map2d.
  cbn [fmap option_fmap option_map arr_dtype arr_shape arr_data].
  do 2 f_equal. rewrite <-list_fmap_compose.
  apply list_fmap_ext. intros _ row _. cbn [compose].
  rewrite fmap_zip_with. apply zip_with_ext; [|done..].
  intros hi lo. unfold midpoint_in. by rewrite !astype_same.
Qed.

Lemma well_shaped_midpoints_in (pc : ndarray) :
  well_shaped pc = true -> well_shaped (midpoints_in pc) = true.
Proof.
  rewrite !well_shaped_spec. unfold midpoints_in. cbn [arr_data arr_shape fst snd].
  intros [Hr Hc]. split.
  - by rewrite length_fmap.
  - apply Forall_fmap. eapply Forall_impl; [exact Hc|]. cbn.
    intros row Hrow. rewrite length_zip_with, length_drop, length_take. lia.
Qed.

Lemma arr_get_midpoints_in (pc : ndarray) (i j : nat) (hi lo : spec_float) :
  arr_get pc i (j + 1) = Some hi -> arr_get pc i j = Some lo ->
  arr_get (midpoints_in pc) i j = Some (midpoint_in (arr_dtype pc) hi lo).
Proof.
  unfold arr_get, midpoints_in. cbn [arr_data].
  rewrite list_lookup_fmap.
  destruct (arr_data pc !! i) as [row|]; [|done]. cbn.
  intros Hhi Hlo. rewrite lookup_zip_with, lookup_drop.
  replace (1 + j)%nat with (j + 1)%nat by lia. rewrite Hhi. cbn.
  rewrite lookup_take_lt, Hlo; [done|].
  apply lookup_lt_Some in Hhi. lia.
Qed.

Lemma can_broadcast_shape (shape : nat * nat) (x y : ndarray) :
  arr_shape x = arr_shape y -> can_broadcast_to shape x = can_broadcast_to shape y.
Proof. unfold can_broadcast_to. by intros ->. Qed.

(** What the update writes when the midpoints fit the element array. *)
Lemma update_writes (h : heap) (self pcl epl : loc) (a t : ndarray) :
  rod_array h self "position_collection" = Some (pcl, a) ->
  rod_array h self "element_position" = Some (epl, t) ->
  well_shaped a = true ->
  can_broadcast_to (arr_shape t) (upper a) = true ->
  update_rod_element_position self h =
    Return tt (<[epl := ONdarray
                  {| arr_dtype := arr_dtype t;
                     arr_shape := arr_shape t;
                     arr_data := map2d (astype (arr_dtype a) (arr_dtype t))
                                   (broadcast_data (arr_shape t) (midpoints_in a)) |}]> h).
Proof.
  intros Hpc [Hep Hepl]%rod_array_attr Hw Hfit.
  destruct (update_unfold h self pcl a Hpc) as (s & Hadd & ->).
  rewrite Hep, Hepl.
  pose proof (rhs_midpoints_in a Hw) as Hrhs. rewrite Hadd in Hrhs.
  apply (inj Some) in Hrhs. rewrite Hrhs.
  unfold setitem_ellipsis.
  rewrite (can_broadcast_shape _ (midpoints_in a) (upper a)) by (by rewrite upper_eq).
  by rewrite Hfit.
Qed.

Lemma arr_get_map2d {A B} (f : A -> B) (rows : list (list A)) (i j : nat) :
  (row ← map2d f rows !! i; row !! j) = f <$> (row ← rows !! i; row !! j).
Proof.
  unfold map2d. rewrite list_lookup_fmap.
  destruct (rows !! i) as [row|]; [|done]. cbn. by rewrite list_lookup_fmap.
Qed.

Lemma stretch_singleton_lookup {A} (n j : nat) (x : A) :
  (j < n)%nat -> stretch n [x] !! j = Some x.
Proof.
  intros Hj. unfold stretch. cbn [length].
  destruct (1 =? n)%nat eqn:E.
  - apply Nat.eqb_eq in E. subst n. by replace j with 0%nat by lia.
  - by apply lookup_replicate_2.
Qed.

Lemma update_misfit (h : heap) (self pcl epl : loc) (a t : ndarray) :
  rod_array h self "position_collection" = Some (pcl, a) ->
  rod_array h self "element_position" = Some (epl, t) ->
  can_broadcast_to (arr_shape t) (upper a) = false ->
  update_rod_element_position self h = Raise ValueError h.
Proof.
  intros Hpc [Hep Hepl]%rod_array_attr Hfit.
  destruct (update_unfold h self pcl a Hpc) as (s & Hadd & ->).
  rewrite Hep, Hepl.
  destruct (add_slices a) as (s' & Hadd' & Hs & _).
  rewrite Hadd in Hadd'. injection Hadd' as <-.
  unfold setitem_ellipsis.
  by rewrite (can_broadcast_shape _ (rmul_scalar half s) (upper a)), Hfit.
Qed.

Lemma update_fit (h : heap) (self pcl epl : loc) (a t : ndarray) :
  rod_array h self "position_collection" = Some (pcl, a) ->
  rod_array h self "element_position" = Some (epl, t) ->
  can_broadcast_to (arr_shape t) (upper a) = true ->
  ∃ t', update_rod_element_position self h = Return tt (<[epl := ONdarray t']> h) ∧
        arr_dtype t' = arr_dtype t ∧ arr_shape t' = arr_shape t.
Proof.
  intros Hpc [Hep Hepl]%rod_array_attr Hfit.
  destruct (update_unfold h self pcl a Hpc) as (s & Hadd & ->).
  rewrite Hep, Hepl.
  destruct (add_slices a) as (s' & Hadd' & Hs & _).
  rewrite Hadd in Hadd'. injection Hadd' as <-.
  unfold setitem_ellipsis.
  rewrite (can_broadcast_shape _ (rmul_scalar half s) (upper a)), Hfit by done.
  by eexists.
Qed.

(** X1. Either the midpoints fit the element array, by shape or by
    broadcasting, and the update returns with the dtype and the shape of
    [element_position] as they were; or it raises ValueError and leaves the
    store as it was. *)
Theorem update_raises_unless_midpoints_fit (h : heap) (self pcl epl : loc) (a t : ndarray) :
  rod_array h self "position_collection" = Some (pcl, a) ->
  rod_array h self "element_position" = Some (epl, t) ->
  (can_broadcast_to (arr_shape t) (upper a) = false ->
     update_rod_element_position self h = Raise ValueError h) ∧
  (can_broadcast_to (arr_shape t) (upper a) = true ->
     ∃ t', update_rod_element_position self h = Return tt (<[epl := ONdarray t']> h) ∧
           arr_dtype t' = arr_dtype t ∧ arr_shape t' = arr_shape t).
Proof.
  intros Hpc Hep. split; intros Hfit.
  - by apply (update_misfit h self pcl epl a t).
  - by apply (update_fit h self pcl epl a t).
Qed.

(** X2. Without an attribute [element_position] on the rod the update raises
    AttributeError, once the right-hand side is evaluated, and leaves the
    store as it was. *)
Theorem update_needs_element_position (h : heap) (self pcl : loc) (a : ndarray) :
  rod_array h self "position_collection" = Some (pcl, a) ->
  rod_attr h self "element_position" = None ->
  update_rod_element_position self h = Raise (AttributeError "element_position") h.
Proof.
  intros Hpc Hep.
  destruct (update_unfold h self pcl a Hpc) as (s & _ & ->). by rewrite Hep.
Qed.

(** X3. For a node array of any precision and any number of rows, and an
    element array with one column less, the update writes into every entry
    the midpoint computed in the precision of the node array and converted
    to the dtype of the element array. *)
Theorem update_midpoints_any_precision (h : heap) (self pcl epl : loc) (a t : ndarray) :
  rod_array h self "position_collection" = Some (pcl, a) ->
  rod_array h self "element_position" = Some (epl, t) ->
  well_shaped a = true ->
  arr_shape t = (fst (arr_shape a), (snd (arr_shape a) - 1)%nat) ->
  ∃ t', update_rod_element_position self h = Return tt (<[epl := ONdarray t']> h) ∧
        arr_dtype t' = arr_dtype t ∧ arr_shape t' = arr_shape t ∧
        ∀ i j hi lo,
          arr_get a i (j + 1) = Some hi -> arr_get a i j = Some lo ->
          arr_get t' i j
            = Some (astype (arr_dtype a) (arr_dtype t) (midpoint_in (arr_dtype a) hi lo)).
Proof.
  intros Hpc Hep Hw Hs.
  assert (can_broadcast_to (arr_shape t) (upper a) = true) as Hfit.
  { unfold can_broadcast_to. rewrite upper_eq, Hs. cbn [arr_shape fst snd].
    by rewrite !Nat.eqb_refl. }
  eexists. split; [by apply (update_writes h self pcl epl a t)|]. split_and!; [done..|].
  intros i j hi lo Hhi Hlo. unfold arr_get. cbn [arr_data].
  rewrite broadcast_data_same by (by auto using well_shaped_midpoints_in).
  rewrite arr_get_map2d.
  pose proof (arr_get_midpoints_in a i j hi lo Hhi Hlo) as Hm.
  unfold arr_get in Hm. by rewrite Hm.
Qed.

(** X4. A node array of two columns has one midpoint per row; the update
    broadcasts it, without an error, to every column of the element array,
    however many elements the rod has. *)
Theorem update_broadcasts_single_midpoint (h : heap) (self pcl epl : loc) (a t : ndarray) :
  rod_array h self "position_collection" = Some (pcl, a) ->
  rod_array h self "element_position" = Some (epl, t) ->
  well_shaped a = true ->
  snd (arr_shape a) = 2%nat ->
  fst (arr_shape t) = fst (arr_shape a) ->
  ∃ t', update_rod_element_position self h = Return tt (<[epl := ONdarray t']> h) ∧
        arr_shape t' = arr_shape t ∧
        ∀ i j hi lo,
          arr_get a i 1 = Some hi -> arr_get a i 0 = Some lo ->
          (j < snd (arr_shape t))%nat ->
          arr_get t' i j
            = Some (astype (arr_dtype a) (arr_dtype t) (midpoint_in (arr_dtype a) hi lo)).
Proof.
  intros Hpc Hep Hw Hc Hr.
  assert (can_broadcast_to (arr_shape t) (upper a) = true) as Hfit.
  { unfold can_broadcast_to. rewrite upper_eq. cbn [arr_shape fst snd].
    rewrite Hc, Hr, Nat.eqb_refl. cbn. by rewrite orb_true_r. }
  eexists. split; [by apply (update_writes h self pcl epl a t)|]. split; [done|].
  intros i j hi lo Hhi Hlo Hj. unfold arr_get. cbn [arr_data].
  rewrite arr_get_map2d.
  pose proof (arr_get_midpoints_in a i 0 hi lo Hhi Hlo) as Hm.
  pose proof (well_shaped_midpoints_in a Hw) as [Hlen Hrows]%well_shaped_spec.
  unfold arr_get in Hm.
  destruct (arr_data (midpoints_in a) !! i) as [row|] eqn:Hrow; [|done].
  cbn in Hm.
  assert (row = [midpoint_in (arr_dtype a) hi lo]) as ->.
  { rewrite Forall_forall in Hrows.
    assert (length row = 1%nat) as Hlr.
    { rewrite (Hrows row) by (by eapply list_elem_of_lookup_2).
      unfold midpoints_in. cbn [arr_shape snd]. by rewrite Hc. }
    destruct row as [|x [|? ?]]; try done. cbn in Hm. by injection Hm as ->. }
  unfold broadcast_data.
  rewrite stretch_same.
  2:{ rewrite length_fmap, Hlen. unfold midpoints_in. cbn [arr_shape fst]. done. }
  rewrite list_lookup_fmap, Hrow. cbn.
  by rewrite stretch_singleton_lookup.
Qed.

(** X5. The engine holds the rod by reference: once the body integrator has
    overwritten the node positions in place, the next update writes the
    midpoints of the new positions. *)
Theorem update_follows_moved_nodes (self rod epl pcl : loc) (n : Z) (h : heap)
    (pc pc' : ndarray) :
  engine_inv self rod n epl h ->
  rod_array h self "position_collection" = Some (pcl, pc) ->
  arr_dtype pc' = arr_dtype pc ->
  arr_shape pc' = arr_shape pc ->
  well_shaped pc' = true ->
  update_rod_element_position self (<[pcl := ONdarray pc']> h)
  = Return tt (<[epl := ONdarray (midpoints pc')]> (<[pcl := ONdarray pc']> h)).
Proof.
  intros Hinv Hpc Hd Hs Hw.
  assert (engine_inv self rod n epl (<[pcl := ONdarray pc']> h)) as Hinv'
    by (eapply engine_inv_step; [exact Hinv|by eapply step_move]).
  destruct (update_on_engine _ _ _ _ _ Hinv') as (pcl2 & pc2 & Hpc2 & _ & _ & _ & _ & Hupd).
  rewrite Hupd. do 3 f_equal.
  apply rod_array_attr in Hpc as [Hattr Hpcl], Hpc2 as [Hattr2 Hpcl2].
  assert (rod_attr (<[pcl := ONdarray pc']> h) self "position_collection"
          = rod_attr h self "position_collection") as Hsame.
  { unfold rod_attr. rewrite (instance_of_overwrite h pcl pc pc') by done.
    destruct (instance_of h (VRef self)) as [[? sattrs]|]; [|done]. cbn.
    destruct (sattrs !! "cosserat_rod") as [rodv|]; [|done]. cbn.
    by rewrite (instance_of_overwrite h pcl pc pc'). }
  rewrite Hsame, Hattr in Hattr2. injection Hattr2 as <-.
  rewrite lookup_insert_eq in Hpcl2. by injection Hpcl2 as <-.
Qed.

End UpdateEdges.

(** * The constructor where it fails, and what it leaves *)

Module ConstructEdges.
Import Python CosseratRodFlowInteraction Numpy NumpyFacts RodState UpdateFacts PythonFacts
  EngineFacts ConstructFacts StepFacts CollaboratorFacts UpdateEdges.

Lemma construct_unfold `{FG : ForcingGridClass} `{SC : SuperClass} (a : InitArgs) (h : heap) :
  construct a h =
    finish (fresh (dom h))
      (__init__ (fresh (dom h)) a (<[fresh (dom h) := OInstance ∅]> h)).
Proof.
  unfold construct. erewrite bind_return; [|reflexivity].
  unfold mbind, M_bind, bind. by destruct (__init__ _ _ _).
Qed.

Lemma init_raise `{FG : ForcingGridClass} `{SC : SuperClass}
    (self : loc) (a : InitArgs) (h h' : heap) (e : exn) :
  init_body self a h = Raise e h' -> __init__ self a h = Raise e h'.
Proof. intros Hb. unfold __init__. by erewrite bind_raise. Qed.

(** X6. A rod whose [n_elems] is negative: the constructor raises ValueError at
    one of its first two allocations, whatever the forcing-grid class and
    the super class are, having done nothing but allocate. *)
Theorem construct_negative_n_elems `{FG : ForcingGridClass} `{SC : SuperClass}
    (h : heap) (a : InitArgs) (attrs : gmap string value) (n : Z) :
  h !! cosserat_rod a = Some (OInstance attrs) ->
  attrs !! "n_elems" = Some (VInt n) ->
  n < 0 ->
  ∃ h', construct a h = Raise ValueError h' ∧ h ⊆ h'.
Proof.
  intros Hrod Hn Hneg. rewrite construct_unfold.
  set (self := fresh (dom h)). set (hs := <[self := OInstance ∅]> h).
  assert (h ⊆ hs) as Hsub by apply alloc_subseteq.
  assert (hs !! cosserat_rod a = Some (OInstance attrs)) as Hrods by (by apply lookup_alloc).
  destruct (decide (n = -1)) as [->|Hn1].
  - exists (<[fresh (dom hs) := ONdarray {| arr_dtype := float64; arr_shape := (3%nat, 0%nat);
                                            arr_data := replicate 3 [] |}]> hs).
    split; [|by etrans; [exact Hsub|apply alloc_subseteq]].
    erewrite init_raise; [done|]. unfold init_body.
    erewrite bind_return; [|by eapply get_n_elems_succ].
    erewrite bind_return; [|by eapply np_zeros_alloc].
    erewrite bind_return; [|eapply get_n_elems; [by apply lookup_alloc|done]].
    reflexivity.
  - exists hs. split; [|done].
    erewrite init_raise; [done|]. unfold init_body.
    erewrite bind_return; [|by eapply get_n_elems_succ].
    unfold np_zeros, zeros.
    assert ((3 <? 0) || (n + 1 <? 0) = true) as -> by (cbn; lia).
    reflexivity.
Qed.


Section WithGrid.
Context `{FG : ForcingGridClass} {accepts : Z -> Z -> Prop} {FGok : ForcingGridOk FG accepts}.

(** The constructor up to its call of the update: the instance refers to
    the rod and the rod to a new array of zeros. *)
Lemma init_body_to_update (h : heap) (self : loc) (a : InitArgs) (n : Z)
    (sattrs attrs : gmap string value) :
  h !! self = Some (OInstance sattrs) ->
  self ≠ cosserat_rod a ->
  h !! cosserat_rod a = Some (OInstance attrs) ->
  attrs !! "n_elems" = Some (VInt n) ->
  0 <= n ->
  within_limits float64 (3, n + 1) = true ->
  accepts (grid_dim a) n ->
  ∃ (bf bt fg epl : loc) (zt : ndarray) (h6 : heap),
    zeros (3, n) None = Some zt ∧
    init_body self a h
      = (update_rod_element_position self ≫= λ _, mret (super_args a bf bt fg)) h6 ∧
    h !! epl = None ∧
    h6 !! self = Some (OInstance (<["cosserat_rod" := VRef (cosserat_rod a)]> sattrs)) ∧
    h6 !! cosserat_rod a = Some (OInstance (<["element_position" := VRef epl]> attrs)) ∧
    h6 !! epl = Some (ONdarray zt) ∧
    (∀ l o, l ≠ self -> l ≠ cosserat_rod a -> h !! l = Some o -> h6 !! l = Some o).
Proof.
  intros Hself Hne Hrod Hn Hn0 Hlimf Hacc.
  set (rod := cosserat_rod a) in *.
  assert (within_limits float64 (3, n) = true) as Hlimt.
  { apply within_limits_rows in Hlimf; [|lia]. apply within_limits_rows; lia. }
  pose proof (zeros_nonneg 3 (n + 1) None ltac:(lia) ltac:(lia) Hlimf) as Hzf.
  pose proof (zeros_nonneg 3 n None ltac:(lia) ltac:(lia) Hlimt) as Hzt.
  set (zf := mk_ndarray _ _ _) in Hzf. set (zt := mk_ndarray _ _ _) in Hzt.
  set (l1 := fresh (dom h)).
  set (h1 := <[l1 := ONdarray zf]> h).
  set (l2 := fresh (dom h1)).
  set (h2 := <[l2 := ONdarray zt]> h1).
  assert (∀ l o, h !! l = Some o -> h2 !! l = Some o) as Hframe2.
  { intros l o Hl. by apply lookup_alloc, lookup_alloc. }
  destruct (forcing_grid_returns h2 (grid_dim a) rod (forcing_grid_kwargs a) attrs n)
    as (fg & h3 & Hfg & Hsub); [by apply Hframe2|done|done|].
  assert (∀ l o, h2 !! l = Some o -> h3 !! l = Some o) as Hframe3.
  { intros l o Hl. by eapply lookup_weaken. }
  set (sattrs' := <["cosserat_rod" := VRef rod]> sattrs).
  set (h4 := <[self := OInstance sattrs']> h3).
  assert (∀ l o, l ≠ self -> h !! l = Some o -> h4 !! l = Some o) as Hframe4.
  { intros l o Hl Hlo. unfold h4. rewrite lookup_insert_ne by done. auto. }
  set (l3 := fresh (dom h4)).
  set (h5 := <[l3 := ONdarray zt]> h4).
  assert (h4 !! l3 = None) as Hl3 by apply fresh_unused.
  set (attrs' := <["element_position" := VRef l3]> attrs).
  set (h6 := <[rod := OInstance attrs']> h5).
  assert (h4 !! self = Some (OInstance sattrs')) as H4self by apply lookup_insert_eq.
  assert (h4 !! rod = Some (OInstance attrs)) as H4rod by auto.
  assert (l3 ≠ self) as Hl3self by (intros E; rewrite E in Hl3; congruence).
  assert (l3 ≠ rod) as Hl3rod by (intros E; rewrite E in Hl3; congruence).
  exists l1, l2, fg, l3, zt, h6.
  split_and!; try done.
  - unfold init_body. fold rod.
    erewrite bind_return; [|by eapply get_n_elems_succ].
    erewrite bind_return; [|by eapply np_zeros_alloc]. fold l1 h1.
    erewrite bind_return; [|eapply get_n_elems; [by apply lookup_alloc|done]].
    erewrite bind_return; [|by eapply np_zeros_alloc]. fold l2 h2.
    erewrite bind_return; [|exact Hfg].
    erewrite bind_return; [|eapply setattr_instance; by apply Hframe3, Hframe2].
    fold sattrs' h4.
    erewrite bind_return; [|by eapply get_n_elems].
    erewrite bind_return; [|by eapply np_zeros_alloc]. fold l3 h5.
    erewrite bind_return;
      [|eapply getattr_instance;
        [unfold h5; rewrite lookup_insert_ne by done; exact H4self
        |apply lookup_insert_eq]].
    erewrite bind_return;
      [|eapply setattr_instance; unfold h5; rewrite lookup_insert_ne by done; exact H4rod].
    reflexivity.
  - destruct (h !! l3) as [o|] eqn:E; [|done].
    by rewrite (Hframe4 l3 o Hl3self E) in Hl3.
  - unfold h6, h5. by rewrite !lookup_insert_ne.
  - apply lookup_insert_eq.
  - unfold h6. rewrite lookup_insert_ne by done. apply lookup_insert_eq.
  - intros l o Hls Hlr Hl. unfold h6, h5.
    assert (h4 !! l = Some o) as H4l by auto.
    assert (l3 ≠ l) by (intros E; rewrite E in Hl3; congruence).
    by rewrite !lookup_insert_ne.
Qed.

(** X8. A rod with more nodes than its [n_elems] has room for, the node
    array being a float64 array of three rows that numpy can hold and
    whose midpoints do not fit [(3, n_elems)]: the constructor raises
    ValueError from its call of the update, whatever the super class is,
    and by then it has bound the attribute [element_position] of the rod to
    a new array of zeros. *)
Theorem construct_failure_leaves_element_position (h : heap) (a : InitArgs) (n : Z)
    (attrs : gmap string value) (pcl : loc) (pc : ndarray) :
  h !! cosserat_rod a = Some (OInstance attrs) ->
  attrs !! "n_elems" = Some (VInt n) ->
  attrs !! "position_collection" = Some (VRef pcl) ->
  h !! pcl = Some (ONdarray pc) ->
  0 <= n ->
  arr_dtype pc = float64 ->
  fst (arr_shape pc) = 3%nat ->
  representable pc = true ->
  n + 1 <= Z.of_nat (snd (arr_shape pc)) ->
  accepts (grid_dim a) n ->
  can_broadcast_to (3%nat, Z.to_nat n) (upper pc) = false ->
  ∃ (epl : loc) (h' : heap),
    (∀ SC : SuperClass, construct a h = Raise ValueError h') ∧
    h !! epl = None ∧
    h' !! cosserat_rod a = Some (OInstance (<["element_position" := VRef epl]> attrs)) ∧
    h' !! epl = Some (ONdarray {| arr_dtype := float64;
                                   arr_shape := (3%nat, Z.to_nat n);
                                   arr_data := replicate 3 (replicate (Z.to_nat n) zero) |}).
Proof.
  intros Hrod Hn Hpc Hpcl Hn0 Hd Hr Hrep Hcols Hacc Hfit.
  assert (within_limits float64 (3, n + 1) = true) as Hlimf.
  { unfold representable in Hrep. rewrite Hd, Hr in Hrep.
    change (Z.of_nat 3) with 3 in Hrep.
    apply within_limits_rows in Hrep; [|lia]. apply within_limits_rows; lia. }
  assert (within_limits float64 (3, n) = true) as Hlimt.
  { apply within_limits_rows in Hlimf; [|lia]. apply within_limits_rows; lia. }
  set (self := fresh (dom h)). set (hs := <[self := OInstance ∅]> h).
  assert (h !! self = None) as Hself by apply fresh_unused.
  assert (self ≠ cosserat_rod a) as Hsr by (intros E; rewrite E in Hself; congruence).
  assert (pcl ≠ self) as Hps by (intros E; rewrite E in Hpcl; congruence).
  assert (pcl ≠ cosserat_rod a) as Hpr by (intros E; rewrite E, Hrod in Hpcl; discriminate).
  destruct (init_body_to_update hs self a n ∅ attrs)
    as (bf & bt & fg & epl & zt & h6 & Hzt & Hinit & Hepl & H6self & H6rod & H6epl & Hframe);
    try done.
  { apply lookup_insert_eq. }
  { by apply lookup_alloc. }
  rewrite zeros_nonneg in Hzt by first [lia | assumption]. injection Hzt as <-.
  assert (h !! epl = None) as Hepl0.
  { destruct (decide (self = epl)) as [<-|Hne]; [done|].
    unfold hs in Hepl. by rewrite lookup_insert_ne in Hepl. }
  assert (h6 !! pcl = Some (ONdarray pc)) as H6pcl.
  { apply Hframe; [done..|]. by apply lookup_alloc. }
  exists epl, h6. split_and!; try done.
  intros SC. rewrite construct_unfold. fold self hs.
  erewrite init_raise; [done|]. rewrite Hinit.
  apply bind_raise.
  eapply (update_misfit h6 self pcl epl pc
            {| arr_dtype := float64; arr_shape := (3%nat, Z.to_nat n);
               arr_data := replicate 3 (replicate (Z.to_nat n) zero) |}); [| |exact Hfit].
  - apply rod_array_attr. split; [|done].
    unfold rod_attr, instance_of. rewrite H6self. cbn [mbind option_bind].
    rewrite lookup_insert_eq. cbn [mbind option_bind]. rewrite H6rod. cbn [mbind option_bind].
    by rewrite lookup_insert_ne by discriminate.
  - apply rod_array_attr. split; [|done].
    unfold rod_attr, instance_of. rewrite H6self. cbn [mbind option_bind].
    rewrite lookup_insert_eq. cbn [mbind option_bind]. rewrite H6rod. cbn [mbind option_bind].
    by rewrite lookup_insert_eq.
Qed.

Context `{SC : SuperClass} {saccepts : SuperArgs -> Prop} {SCok : SuperOk SC saccepts}.

Lemma rod_array_of (h : heap) (self rod l : loc) (name : string)
    (sattrs rattrs : gmap string value) (a : ndarray) :
  h !! self = Some (OInstance sattrs) ->
  sattrs !! "cosserat_rod" = Some (VRef rod) ->
  h !! rod = Some (OInstance rattrs) ->
  rattrs !! name = Some (VRef l) ->
  h !! l = Some (ONdarray a) ->
  rod_array h self name = Some (l, a).
Proof.
  intros Hself Hrod Hr Hname Hl. apply rod_array_attr. split; [|done].
  unfold rod_attr, instance_of. rewrite Hself. cbn [mbind option_bind].
  rewrite Hrod. cbn [mbind option_bind]. rewrite Hr. done.
Qed.

(** X9. The constructor calls the update: a constructed engine reads the node
    array of the rod it was given, the same object, and the element
    positions it leaves are already the midpoints of the nodes. *)
Theorem construct_computes_element_positions (h : heap) (a : InitArgs) (n : Z)
    (attrs : gmap string value) (pcl : loc) (pc : ndarray) :
  rod_ok h (cosserat_rod a) n ->
  h !! cosserat_rod a = Some (OInstance attrs) ->
  attrs !! "position_collection" = Some (VRef pcl) ->
  h !! pcl = Some (ONdarray pc) ->
  accepts (grid_dim a) n ->
  (∀ bf bt fg, saccepts (super_args a bf bt fg)) ->
  ∃ (self epl : loc) (h1 : heap),
    construct a h = Return self h1 ∧
    rod_array h1 self "position_collection" = Some (pcl, pc) ∧
    rod_array h1 self "element_position" = Some (epl, midpoints pc).
Proof.
  intros (attrs' & pcl' & pc' & Hrod' & Hn & Hpc' & Hpcl' & Hn0 & Hd & Hs & Hw & Hlim)
         Hrod Hpc Hpcl Hacc Hsacc.
  assert (attrs' = attrs) as -> by congruence.
  assert (pcl' = pcl) as -> by congruence.
  assert (pc' = pc) as -> by congruence.
  set (self := fresh (dom h)).
  set (hs := <[self := OInstance ∅]> h).
  assert (h !! self = None) as Hself by apply fresh_unused.
  assert (self ≠ cosserat_rod a) as Hsr by (intros E; rewrite E in Hself; congruence).
  assert (pcl ≠ self) as Hps by (intros E; rewrite E in Hpcl; congruence).
  assert (pcl ≠ cosserat_rod a) as Hpr by (intros E; rewrite E, Hrod in Hpcl; discriminate).
  destruct (init_body_spec hs self a n ∅ attrs pcl pc)
    as (bf & bt & fg & epl & zf & zt & h7 & Hinit & Hzf & Hzt & Hbf & Hbt & Hepl & Hbft
        & H7bf & H7bt & H7self & H7rod & H7epl & Hframe); try done.
  { apply lookup_insert_eq. }
  { by apply lookup_alloc. }
  { by apply lookup_alloc. }
  destruct (super_returns h7 self (super_args a bf bt fg) _ H7self (Hsacc bf bt fg))
    as (h8 & sattrs' & Hsuper & H8self & Hkeep & Hframe8).
  assert (epl ≠ self) as Hes.
  { intros E. rewrite E in Hepl. unfold hs in Hepl. by rewrite lookup_insert_eq in Hepl. }
  assert (h7 !! pcl = Some (ONdarray pc)) as H7pcl.
  { apply Hframe; [done..|]. by apply lookup_alloc. }
  rewrite lookup_insert_eq in Hkeep.
  exists self, epl, h8. split_and!.
  - rewrite construct_unfold. fold self hs.
    unfold __init__. erewrite bind_return; [|exact Hinit]. by rewrite Hsuper.
  - eapply rod_array_of; [exact H8self|exact Hkeep|by apply Hframe8| |by apply Hframe8].
    by rewrite lookup_insert_ne by discriminate.
  - eapply rod_array_of; [exact H8self|exact Hkeep|by apply Hframe8| |by apply Hframe8].
    apply lookup_insert_eq.
Qed.

(** An array of the rod that is overwritten in place is read, by the
    same reference, with its new contents. *)
Lemma rod_array_overwrite (h : heap) (self : loc) (name : string)
    (l : loc) (a a' : ndarray) :
  rod_array h self name = Some (l, a) ->
  rod_array (<[l := ONdarray a']> h) self name = Some (l, a').
Proof.
  intros [Hattr Hl]%rod_array_attr. apply rod_array_attr. split.
  - unfold rod_attr in *. rewrite (instance_of_overwrite h l a a') by done.
    destruct (instance_of h (VRef self)) as [[? sattrs]|]; [|done].
    cbn [mbind option_bind] in *.
    destruct (sattrs !! "cosserat_rod") as [rod|]; [|done].
    cbn [mbind option_bind] in *.
    by rewrite (instance_of_overwrite h l a a').
  - apply lookup_insert_eq.
Qed.

(** X10. A second engine constructed on the same rod rebinds
    [element_position] to a new array, and from then on the first engine
    updates that array: once the nodes have moved, its update leaves the
    store with the midpoints of the new node positions in the new array and
    nothing else changed, so that the array the first engine was
    constructed with keeps what it held. *)
Theorem second_engine_takes_over (h : heap) (a1 a2 : InitArgs) (n : Z) :
  cosserat_rod a2 = cosserat_rod a1 ->
  rod_ok h (cosserat_rod a1) n ->
  accepts (grid_dim a1) n -> accepts (grid_dim a2) n ->
  (∀ bf bt fg, saccepts (super_args a1 bf bt fg)) ->
  (∀ bf bt fg, saccepts (super_args a2 bf bt fg)) ->
  ∃ (self1 epl1 : loc) (ep1 : ndarray) (h1 : heap)
    (self2 epl2 : loc) (h2 : heap) (pcl : loc) (pc : ndarray),
    construct a1 h = Return self1 h1 ∧
    rod_array h1 self1 "element_position" = Some (epl1, ep1) ∧
    construct a2 h1 = Return self2 h2 ∧
    self1 ≠ self2 ∧ epl1 ≠ epl2 ∧ h1 !! epl2 = None ∧
    rod_array h2 self1 "position_collection" = Some (pcl, pc) ∧
    ∀ pc' : ndarray,
      arr_dtype pc' = arr_dtype pc ->
      arr_shape pc' = arr_shape pc ->
      well_shaped pc' = true ->
      let moved := <[pcl := ONdarray pc']> h2 in
      update_rod_element_position self1 moved
        = Return tt (<[epl2 := ONdarray (midpoints pc')]> moved) ∧
      (<[epl2 := ONdarray (midpoints pc')]> moved) !! epl1 = Some (ONdarray ep1).
Proof.
  intros Hsame Hrod Hacc1 Hacc2 Hs1 Hs2.
  destruct (construct_spec h a1 n Hrod Hacc1 Hs1)
    as (self1 & epl1 & h1 & attrs & Hc1 & Hself1 & Hepl1 & Hr & Hr1 & Hinv1 & Hframe1).
  assert (rod_ok h1 (cosserat_rod a2) n) as Hrod1 by (rewrite Hsame; apply Hinv1).
  destruct (construct_spec h1 a2 n Hrod1 Hacc2 Hs2)
    as (self2 & epl2 & h2 & attrs1 & Hc2 & Hself2 & Hepl2 & Hr' & Hr2 & Hinv2 & Hframe2).
  rewrite Hsame in *.
  destruct (rod_array_inv _ _ _ _ _ Hinv1) as (ep1 & Hra1 & _ & Hsep1).
  pose proof (rod_array_Some _ _ _ _ _ Hra1) as H1epl.
  pose proof Hinv1 as [(sattrs1 & H1self & H1rod) _].
  assert (self1 ≠ self2) as Hne by (intros E; rewrite E in H1self; congruence).
  assert (epl1 ≠ epl2) as Hnee by (intros E; rewrite E in H1epl; congruence).
  assert (self1 ≠ cosserat_rod a1) as Hsr by (intros E; rewrite E in Hself1; congruence).
  assert (epl1 ≠ cosserat_rod a1) as Her by (intros E; rewrite E in Hepl1; congruence).
  assert (h2 !! epl1 = Some (ONdarray ep1)) as H2epl1 by (by apply Hframe2).
  assert (engine_inv self1 (cosserat_rod a1) n epl2 h2) as Hinv12.
  { destruct Hinv2 as [_ [Hrok2 Hep2]].
    split_and!; [|done..]. exists sattrs1. split; [|done]. by apply Hframe2. }
  destruct (update_on_engine _ _ _ _ _ Hinv12) as (pcl & pc & Hpc & _ & Hspc & _ & _ & _).
  assert (pcl ≠ epl1) as Hpe.
  { intros ->. apply rod_array_Some in Hpc. rewrite Hpc in H2epl1.
    injection H2epl1 as ->. rewrite Hsep1 in Hspc. injection Hspc. lia. }
  exists self1, epl1, ep1, h1, self2, epl2, h2, pcl, pc.
  split_and!; try done.
  intros pc' Hd' Hs' Hw' moved.
  assert (engine_inv self1 (cosserat_rod a1) n epl2 moved) as Hinv'
    by (eapply engine_inv_step; [exact Hinv12|by eapply step_move]).
  destruct (update_on_engine _ _ _ _ _ Hinv') as (pcl2 & pc2 & Hpc2 & _ & _ & _ & _ & Hupd).
  pose proof (rod_array_overwrite h2 self1 "position_collection" pcl pc pc' Hpc) as Hpc'.
  fold moved in Hpc'. rewrite Hpc' in Hpc2. injection Hpc2 as <- <-.
  split; [exact Hupd|].
  unfold moved. by rewrite !lookup_insert_ne.
Qed.

End WithGrid.

End ConstructEdges.

(** * Runs of the driver *)

Module DriverRuns.
Import FlowPastSphereCase DriverProperties.

Section Driver.
Context {real world : Type} `{Num : Numeric real} `{Col : Collaborators real world}.

Lemma loop_body_step (c : consts) (s : state) :
  ∃ diag dt,
    trace (loop_body c s)
      = trace s ++ [diag ++ [EvComputeStableTimestep dt; EvInteractorTimeStep dt;
                             EvInteractorCall; EvFlowSimTimeStep dt]] ∧
    forallb is_diagnostic diag = true ∧
    (c_save_data c = false -> List.filter is_io_save diag = []) ∧
    t (loop_body c s) = add (t s) dt.
Proof.
  destruct (loop_body_run c s) as (dt & w1 & _ & ->). cbn [trace t].
  eexists _, dt. split; [reflexivity|].
  destruct (snapshot_due c s); [|done].
  destruct (c_save_data c); split_and!; try done.
Qed.

Lemma flow_steps_app (tr1 tr2 : list (list (event (real := real)))) :
  flow_steps (tr1 ++ tr2) = flow_steps tr1 ++ flow_steps tr2.
Proof. unfold flow_steps. by rewrite concat_app, omap_app. Qed.

Lemma flow_steps_diagnostic (diag : list (event (real := real))) :
  forallb is_diagnostic diag = true -> omap flow_step_of diag = [].
Proof.
  induction diag as [|e diag IH]; [done|].
  cbn [forallb]. intros [He Hd]%andb_true_iff.
  destruct e; try done; cbn; auto.
Qed.

Lemma loop_steps (fuel : nat) (c : consts) (s : state) :
  ∃ iterations,
    trace (loop fuel c s) = trace s ++ iterations ∧
    Forall (coupled_step (c_save_data c)) iterations ∧
    t (loop fuel c s) = fold_left add (flow_steps iterations) (t s).
Proof.
  revert s. induction fuel as [|fuel IH]; intros s.
  - exists []. by rewrite app_nil_r.
  - cbn [loop]. destruct (ltb (t s) (c_t_end c)).
    + destruct (loop_body_step c s) as (diag & dt & Htr & Hdiag & Hio & Ht).
      destruct (IH (loop_body c s)) as (its & Hits & Hall & Htime).
      eexists (_ :: its). split_and!.
      * by rewrite Hits, Htr, <-app_assoc.
      * constructor; [|done]. by exists diag, dt.
      * rewrite Htime, Ht. unfold flow_steps. cbn [concat].
        rewrite !omap_app, (flow_steps_diagnostic diag) by done.
        done.
    + exists []. by rewrite app_nil_r.
Qed.

Lemma loop_heads_below (fuel : nat) (c : consts) (s : state) :
  Forall (λ s', ltb (t s') (c_t_end c) = true) (loop_heads fuel c s).
Proof.
  revert s. induction fuel as [|fuel IH]; intros s; [constructor|].
  cbn [loop_heads]. destruct (ltb (t s) (c_t_end c)) eqn:E; [|constructor].
  constructor; [done|apply IH].
Qed.

Lemma loop_leaves (fuel : nat) (c : consts) (s : state) :
  (length (loop_heads fuel c s) < fuel)%nat ->
  ltb (t (loop fuel c s)) (c_t_end c) = false.
Proof.
  revert s. induction fuel as [|fuel IH]; intros s; [cbn; lia|].
  cbn [loop loop_heads]. destruct (ltb (t s) (c_t_end c)) eqn:E; [|done].
  cbn [length]. intros Hlen. apply IH. lia.
Qed.


Lemma run_unfold (fuel : nat) (p : params) (s : state) :
  flow_past_sphere_case fuel p = Some s ->
  ∃ c s0, setup p = Some (c, s0) ∧ s = loop fuel c s0.
Proof.
  unfold flow_past_sphere_case. intros Hrun.
  destruct (setup p) as [[c s0]|]; [|done].
  cbn [mbind option_bind] in Hrun. injection Hrun as <-. by exists c, s0.
Qed.

Lemma setup_fields (p : params) (c : consts) (s0 : state) :
  setup p = Some (c, s0) ->
  c_save_data c = save_data p ∧
  t s0 = literal 0 ∧ foto_timer s0 = literal 0 ∧
  time s0 = [] ∧ drag_coeffs s0 = [] ∧ trace s0 = [].
Proof.
  intros Hsetup.
  unfold setup in Hsetup.
  destruct (sphere_diameter p) as [d'|]; [|done]. cbn [mbind option_bind] in Hsetup.
  destruct (py_div (mul far_field_velocity d') (reynolds p)) as [nu|]; [|done].
  cbn [mbind option_bind] in Hsetup.
  destruct (py_div d' (literal 2)) as [half_d|]; [|done].
  cbn [mbind option_bind] in Hsetup.
  destruct (py_div d' far_field_velocity) as [timescale|]; [|done].
  cbn [mbind option_bind] in Hsetup.
  destruct (py_div _ (of_Z 40)) as [limit|]; [|done].
  cbn [mbind option_bind] in Hsetup.
  by injection Hsetup as <- <-.
Qed.

Lemma setup_raises (p : params) (grid_size_z grid_size_y grid_size_x : Z) :
  grid_size p = (grid_size_z, grid_size_y, grid_size_x) ->
  eqb (literal 2) (literal 0) = false ->
  eqb far_field_velocity (literal 0) = false ->
  eqb (of_Z 40) (literal 0) = false ->
  setup p = None ↔
  eqb (of_Z grid_size_x) (literal 0) = true ∨ eqb (reynolds p) (literal 0) = true.
Proof.
  intros Hgrid H2 H1 H40.
  unfold setup, sphere_diameter, py_div.
  rewrite Hgrid, H2, H1, H40.
  destruct (eqb (of_Z grid_size_x) (literal 0)); cbn [mbind option_bind].
  - split; [by left|done].
  - destruct (eqb (reynolds p) (literal 0)); cbn [mbind option_bind].
    + split; [by right|done].
    + split; [done|by intros [|]].
Qed.

Lemma run_raises (fuel : nat) (p : params) :
  flow_past_sphere_case fuel p = None ↔ setup p = None.
Proof.
  unfold flow_past_sphere_case. by destruct (setup p) as [[c s0]|].
Qed.

(** X11. In every iteration of a run the stable time step is computed once and
    then the interactor is stepped, the interactor is applied and the flow
    simulator is stepped, once each, in this order and by that one time
    step; whatever else the iteration calls are diagnostics, made before. *)
Theorem iteration_steps_flow_after_interactor (fuel : nat) (p : params) (s : state) :
  flow_past_sphere_case fuel p = Some s ->
  Forall (coupled_step (save_data p)) (trace s).
Proof.
  intros (c & s0 & Hsetup & ->)%run_unfold.
  destruct (setup_fields p c s0 Hsetup) as (<- & _ & _ & _ & _ & Hnil).
  destruct (loop_steps fuel c s0) as (its & Htr & Hall & _).
  by rewrite Htr, Hnil.
Qed.

(** X12. The time the loop has reached is the sum, from zero and in order, of
    the time steps the flow simulator was advanced by. *)
Theorem time_is_sum_of_flow_steps (fuel : nat) (p : params) (s : state) :
  flow_past_sphere_case fuel p = Some s ->
  t s = fold_left add (flow_steps (trace s)) (literal 0).
Proof.
  intros (c & s0 & Hsetup & ->)%run_unfold.
  destruct (loop_steps fuel c s0) as (its & Htr & _ & Ht).
  destruct (setup_fields p c s0 Hsetup) as (_ & Ht0 & _ & _ & _ & Hnil).
  by rewrite Ht, Htr, Hnil, Ht0.
Qed.

(** X13. The lists [time] and [drag_coeffs] grow together, by at most one entry
    per iteration: [np.c_] on them does not raise, and the rows written to
    [drag_vs_time.csv] pair each recorded time with its drag coefficient. *)
Theorem drag_vs_time_rows (fuel : nat) (p : params) (s : state) :
  flow_past_sphere_case fuel p = Some s ->
  drag_vs_time s = Some (zip (time s) (drag_coeffs s)) ∧
  length (time s) = length (drag_coeffs s) ∧
  (length (time s) <= length (trace s))%nat.
Proof.
  intros (c & s0 & Hsetup & ->)%run_unfold.
  destruct (setup_initial p c s0 Hsetup) as (d & _ & _ & Htime & Hdrag & Hnil).
  destruct (loop_records fuel c s0) as [Ht Hd]. cbn zeta in Ht, Hd.
  destruct (loop_trace fuel c s0) as (its & Htr & Hlen & _).
  rewrite Htime in Ht. rewrite Hdrag in Hd. cbn [app] in Ht, Hd.
  assert (length (time (loop fuel c s0)) = length (drag_coeffs (loop fuel c s0))) as Heq
    by (by rewrite Ht, Hd, !length_map).
  split_and!; [|done|].
  - unfold drag_vs_time, np_c_. rewrite Heq. by rewrite Nat.eqb_refl.
  - rewrite Ht, Htr, Hnil, length_map. cbn [app]. rewrite Hlen.
    apply List.filter_length_le.
Qed.

(** X14. Every recorded time is below [t_end]; and when the loop is left before
    the iterations allowed are used up, the time reached is not. *)
Theorem recorded_times_below_t_end (fuel : nat) (p : params) (s : state) :
  flow_past_sphere_case fuel p = Some s ->
  ∃ c s0,
    setup p = Some (c, s0) ∧
    Forall (λ x, ltb x (c_t_end c) = true) (time s) ∧
    ((length (trace s) < fuel)%nat -> ltb (t s) (c_t_end c) = false).
Proof.
  intros (c & s0 & Hsetup & ->)%run_unfold.
  exists c, s0. split; [done|].
  destruct (setup_initial p c s0 Hsetup) as (d & _ & _ & Htime & _ & Hnil).
  destruct (loop_records fuel c s0) as [Ht _]. cbn zeta in Ht.
  destruct (loop_trace fuel c s0) as (its & Htr & Hlen & _).
  split.
  - rewrite Ht, Htime. cbn [app]. apply Forall_forall. intros x Hx.
    apply list_elem_of_In, in_map_iff in Hx as (s' & <- & Hs').
    apply List.filter_In in Hs' as [Hs' _].
    pose proof (loop_heads_below fuel c s0) as Hall.
    rewrite Forall_forall in Hall. by apply Hall, list_elem_of_In.
  - rewrite Htr, Hnil. cbn [app]. rewrite Hlen. apply loop_leaves.
Qed.

(** X15. When zero equals zero and [t_end] is positive, the first iteration
    records: the first time is zero and the first drag coefficient is the
    one of the forcing field the interactor was constructed with. *)
Theorem first_iteration_records (fuel : nat) (p : params) (c : consts) (s0 s : state) :
  eqb (literal 0) (literal 0) = true ->
  setup p = Some (c, s0) ->
  ltb (literal 0) (c_t_end c) = true ->
  flow_past_sphere_case (S fuel) p = Some s ->
  ∃ times coeffs,
    time s = literal 0 :: times ∧
    drag_coeffs s = drag_coeff_of c (w s0) :: coeffs.
Proof.
  intros Hzero Hsetup Hpos Hrun.
  unfold flow_past_sphere_case in Hrun. rewrite Hsetup in Hrun.
  cbn [mbind option_bind] in Hrun. injection Hrun as <-.
  destruct (loop_records (S fuel) c s0) as [Ht Hd]. cbn zeta in Ht, Hd.
  destruct (setup_fields p c s0 Hsetup) as (_ & Ht0 & Hf0 & Htime & Hdrag & _).
  assert (snapshot_due c s0 = true) as Hdue.
  { unfold snapshot_due. by rewrite Hf0, Hzero, orb_true_r. }
  cbn [loop_heads] in Ht, Hd. rewrite Ht0, Hpos in Ht, Hd.
  cbn [List.filter] in Ht, Hd. rewrite Hdue in Ht, Hd.
  rewrite Htime in Ht. rewrite Hdrag in Hd. cbn [app map] in Ht, Hd.
  rewrite Ht0 in Ht. eauto.
Qed.

(** X16. Of the divisions the driver makes before the loop only the one by
    [grid_size_x] and the one by [reynolds] can raise ZeroDivisionError:
    where 2, the far-field velocity and 40 are not zero, the driver raises
    it exactly when one of the two is. *)
Theorem zero_division_only_by_grid_or_reynolds (fuel : nat) (p : params)
    (grid_size_z grid_size_y grid_size_x : Z) :
  grid_size p = (grid_size_z, grid_size_y, grid_size_x) ->
  eqb (literal 2) (literal 0) = false ->
  eqb far_field_velocity (literal 0) = false ->
  eqb (of_Z 40) (literal 0) = false ->
  flow_past_sphere_case fuel p = None ↔
  eqb (of_Z grid_size_x) (literal 0) = true ∨ eqb (reynolds p) (literal 0) = true.
Proof.
  intros Hgrid H2 H1 H40. rewrite run_raises. by eapply setup_raises.
Qed.

(** X17. Run from the command line the driver never writes the fields to a
    file: [save_data] is passed as [False] and no iteration calls
    [io.save] or [sphere_io.save]. *)
Theorem command_line_never_saves_fields (fuel : nat) (num_threads nx : Z) (s : state) :
  simulate_parallelised_flow_past_sphere fuel num_threads nx = Some s ->
  List.filter is_io_save (concat (trace s)) = [].
Proof.
  unfold simulate_parallelised_flow_past_sphere.
  intros (c & s0 & Hsetup & ->)%run_unfold.
  destruct (setup_fields _ c s0 Hsetup) as (Hsave & _ & _ & _ & _ & Hnil).
  cbn [save_data] in Hsave.
  destruct (loop_steps fuel c s0) as (its & Htr & Hall & _).
  rewrite Htr, Hnil. rewrite Hsave in Hall. cbn [app]. clear Htr.
  induction Hall as [|evs tr (diag & dt & -> & _ & Hio) _ IH]; [done|].
  cbn [concat]. rewrite !List.filter_app, Hio, IH by done. done.
Qed.

(** X18. Run from the command line, with the default Reynolds number of 100,
    the driver raises ZeroDivisionError exactly when [nx] is zero as a
    float: the grid is then empty along x. *)
Theorem command_line_zero_division (fuel : nat) (num_threads nx : Z) :
  eqb (literal 2) (literal 0) = false ->
  eqb far_field_velocity (literal 0) = false ->
  eqb (of_Z 40) (literal 0) = false ->
  eqb (literal 100) (literal 0) = false ->
  simulate_parallelised_flow_past_sphere fuel num_threads nx = None ↔
  eqb (of_Z nx) (literal 0) = true.
Proof.
  intros H2 H1 H40 H100.
  unfold simulate_parallelised_flow_past_sphere.
  rewrite run_raises, (setup_raises _ (nx `div` 2) (nx `div` 2) nx) by done.
  cbn [reynolds]. rewrite H100. split; [by intros [|]|by left].
Qed.

End Driver.
End DriverRuns.

(** * The properties above on the examples *)

Module EdgeScenarios.
Import Python CosseratRodFlowInteraction Numpy RodState ImmersedBody Scenario
  CollaboratorFacts ScenarioFacts UpdateEdges ConstructEdges DriverRuns.

#[local] Existing Instances binary64 counting.

(** [np.zeros] beyond numpy's limit: a float64 array of three rows cannot
    have more than 384307168202282325 columns. *)
Example zeros_beyond_the_limit :
  within_limits float64 (3, 384307168202282325) = true ∧
  zeros (3, 384307168202282326) None = None ∧
  zeros (3, 2 ^ 63 - 1) None = None ∧
  zeros (3, 2 ^ 63) None = None.
Proof. split_and!; reflexivity. Qed.

(** A rod whose [n_elems] is a bool: [n_elems + 1] is an int and the first
    accumulator is allocated, and the second [np.zeros] raises TypeError. *)
Example bool_n_elems_raises :
  ∃ h', construct (FG := rod_grid) (SC := engine_base kernel_always_compatible)
          args_restoring (<[0%nat := OInstance (<["n_elems" := VBool true]> rod_attrs)]> h0)
        = Raise TypeError h' ∧
        size h' = (size h0 + 2)%nat.
Proof. eexists. split; vm_compute; reflexivity. Qed.

Lemma update_raises_unless_midpoints_fit_witness :
  update_rod_element_position 3%nat (<[1%nat := ONdarray five_nodes]> h_engine)
  = Raise ValueError (<[1%nat := ONdarray five_nodes]> h_engine).
Proof.
  destruct (update_raises_unless_midpoints_fit
              (<[1%nat := ONdarray five_nodes]> h_engine) 3%nat 1%nat 2%nat
              five_nodes element_zeros) as [Hraise _].
  - vm_compute. reflexivity.
  - vm_compute. reflexivity.
  - apply Hraise. vm_compute. reflexivity.
Defined.

Lemma update_needs_element_position_witness :
  update_rod_element_position 3%nat (<[3%nat := OInstance engine_attrs]> h0)
  = Raise (AttributeError "element_position") (<[3%nat := OInstance engine_attrs]> h0).
Proof.
  apply (update_needs_element_position
           (<[3%nat := OInstance engine_attrs]> h0) 3%nat 1%nat nodes).
  - vm_compute. reflexivity.
  - vm_compute. reflexivity.
Defined.

Lemma update_midpoints_any_precision_witness :
  ∃ t', update_rod_element_position 3%nat h_single
          = Return tt (<[2%nat := ONdarray t']> h_single) ∧
        arr_dtype t' = float64 ∧ arr_shape t' = (1%nat, 1%nat) ∧
        ∀ i j hi lo,
          arr_get nodes_single i (j + 1) = Some hi -> arr_get nodes_single i j = Some lo ->
          arr_get t' i j = Some (astype float32 float64 (midpoint_in float32 hi lo)).
Proof.
  apply (update_midpoints_any_precision h_single 3%nat 1%nat 2%nat
           nodes_single element_single).
  - vm_compute. reflexivity.
  - vm_compute. reflexivity.
  - reflexivity.
  - reflexivity.
Defined.

Lemma update_broadcasts_single_midpoint_witness :
  ∃ t', update_rod_element_position 3%nat (<[1%nat := ONdarray two_nodes]> h_engine)
          = Return tt (<[2%nat := ONdarray t']> (<[1%nat := ONdarray two_nodes]> h_engine)) ∧
        arr_shape t' = (3%nat, 2%nat) ∧
        ∀ i j hi lo,
          arr_get two_nodes i 1 = Some hi -> arr_get two_nodes i 0 = Some lo ->
          (j < 2)%nat ->
          arr_get t' i j = Some (astype float64 float64 (midpoint_in float64 hi lo)).
Proof.
  apply (update_broadcasts_single_midpoint
           (<[1%nat := ONdarray two_nodes]> h_engine) 3%nat 1%nat 2%nat
           two_nodes element_zeros).
  - vm_compute. reflexivity.
  - vm_compute. reflexivity.
  - reflexivity.
  - reflexivity.
  - reflexivity.
Defined.

Lemma update_follows_moved_nodes_witness :
  update_rod_element_position 3%nat (<[1%nat := ONdarray nodes_moved]> h_engine)
  = Return tt (<[2%nat := ONdarray (midpoints nodes_moved)]>
                 (<[1%nat := ONdarray nodes_moved]> h_engine)).
Proof.
  apply (update_follows_moved_nodes 3%nat 0%nat 2%nat 1%nat 2 h_engine nodes nodes_moved).
  - exact h_engine_inv.
  - vm_compute. reflexivity.
  - reflexivity.
  - reflexivity.
  - reflexivity.
Defined.

Lemma construct_negative_n_elems_witness :
  ∃ h', construct (FG := rod_grid) (SC := engine_base kernel_always_compatible)
          args_restoring (<[0%nat := OInstance (<["n_elems" := VInt (-1)]> rod_attrs)]> h0)
        = Raise ValueError h' ∧
        <[0%nat := OInstance (<["n_elems" := VInt (-1)]> rod_attrs)]> h0 ⊆ h'.
Proof.
  apply (construct_negative_n_elems
           (FG := rod_grid) (SC := engine_base kernel_always_compatible)
           (<[0%nat := OInstance (<["n_elems" := VInt (-1)]> rod_attrs)]> h0)
           args_restoring (<["n_elems" := VInt (-1)]> rod_attrs) (-1)).
  - vm_compute. reflexivity.
  - vm_compute. reflexivity.
  - lia.
Defined.


Lemma construct_failure_leaves_element_position_witness :
  ∃ (epl : loc) (h' : heap),
    (∀ SC : SuperClass,
       construct (FG := rod_grid) args_restoring (<[1%nat := ONdarray five_nodes]> h0)
       = Raise ValueError h') ∧
    (<[1%nat := ONdarray five_nodes]> h0) !! epl = None ∧
    h' !! cosserat_rod args_restoring
      = Some (OInstance (<["element_position" := VRef epl]> rod_attrs)) ∧
    h' !! epl = Some (ONdarray {| arr_dtype := float64;
                                   arr_shape := (3%nat, Z.to_nat 2);
                                   arr_data := replicate 3 (replicate (Z.to_nat 2) zero) |}).
Proof.
  apply (construct_failure_leaves_element_position
           (FG := rod_grid) (accepts := rod_grid_accepts) (FGok := rod_grid_ok)
           (<[1%nat := ONdarray five_nodes]> h0) args_restoring 2 rod_attrs 1%nat five_nodes).
  - vm_compute. reflexivity.
  - vm_compute. reflexivity.
  - vm_compute. reflexivity.
  - vm_compute. reflexivity.
  - lia.
  - reflexivity.
  - reflexivity.
  - reflexivity.
  - cbn. lia.
  - exact grid_accepts_example.
  - reflexivity.
Defined.

Lemma construct_computes_element_positions_witness :
  ∃ (self epl : loc) (h1 : heap),
    construct (FG := rod_grid) (SC := engine_base kernel_always_compatible)
      args_restoring h0 = Return self h1 ∧
    rod_array h1 self "position_collection" = Some (1%nat, nodes) ∧
    rod_array h1 self "element_position" = Some (epl, midpoints nodes).
Proof.
  apply (construct_computes_element_positions
           (FG := rod_grid) (accepts := rod_grid_accepts) (FGok := rod_grid_ok)
           (SC := engine_base kernel_always_compatible)
           (saccepts := engine_base_accepts kernel_always_compatible)
           (SCok := engine_base_ok kernel_always_compatible)
           h0 args_restoring 2 rod_attrs 1%nat nodes).
  - exact h0_rod_ok.
  - vm_compute. reflexivity.
  - vm_compute. reflexivity.
  - vm_compute. reflexivity.
  - exact grid_accepts_example.
  - exact base_accepts_restoring.
Defined.

Lemma second_engine_takes_over_witness :
  ∃ (self1 epl1 : loc) (ep1 : ndarray) (h1 : heap)
    (self2 epl2 : loc) (h2 : heap) (pcl : loc) (pc : ndarray),
    construct (FG := rod_grid) (SC := engine_base kernel_always_compatible)
      args_restoring h0 = Return self1 h1 ∧
    rod_array h1 self1 "element_position" = Some (epl1, ep1) ∧
    construct (FG := rod_grid) (SC := engine_base kernel_always_compatible)
      (args (SFopp one) (SFopp two)) h1 = Return self2 h2 ∧
    self1 ≠ self2 ∧ epl1 ≠ epl2 ∧ h1 !! epl2 = None ∧
    rod_array h2 self1 "position_collection" = Some (pcl, pc) ∧
    ∀ pc' : ndarray,
      arr_dtype pc' = arr_dtype pc ->
      arr_shape pc' = arr_shape pc ->
      well_shaped pc' = true ->
      let moved := <[pcl := ONdarray pc']> h2 in
      update_rod_element_position self1 moved
        = Return tt (<[epl2 := ONdarray (midpoints pc')]> moved) ∧
      (<[epl2 := ONdarray (midpoints pc')]> moved) !! epl1 = Some (ONdarray ep1).
Proof.
  apply (second_engine_takes_over
           (FG := rod_grid) (accepts := rod_grid_accepts) (FGok := rod_grid_ok)
           (SC := engine_base kernel_always_compatible)
           (saccepts := engine_base_accepts kernel_always_compatible)
           (SCok := engine_base_ok kernel_always_compatible)
           h0 args_restoring (args (SFopp one) (SFopp two)) 2).
  - reflexivity.
  - exact h0_rod_ok.
  - exact grid_accepts_example.
  - exact grid_accepts_example.
  - exact base_accepts_restoring.
  - intros bf bt fg. split; reflexivity.
Defined.

Lemma iteration_steps_flow_after_interactor_witness :
  ∃ s, FlowPastSphereCase.flow_past_sphere_case (Num := binary64) (Col := counting)
         10 small_case = Some s ∧
       Forall (FlowPastSphereCase.coupled_step false) (FlowPastSphereCase.trace s).
Proof.
  destruct (FlowPastSphereCase.flow_past_sphere_case (Num := binary64) (Col := counting)
              10 small_case) as [s|] eqn:Hrun.
  - exists s. split; [reflexivity|].
    exact (iteration_steps_flow_after_interactor 10 small_case s Hrun).
  - vm_compute in Hrun. discriminate.
Defined.

Lemma time_is_sum_of_flow_steps_witness :
  ∃ s, FlowPastSphereCase.flow_past_sphere_case (Num := binary64) (Col := counting)
         10 small_case = Some s ∧
       FlowPastSphereCase.t s
       = fold_left FlowPastSphereCase.add
           (FlowPastSphereCase.flow_steps (FlowPastSphereCase.trace s))
           (FlowPastSphereCase.literal 0).
Proof.
  destruct (FlowPastSphereCase.flow_past_sphere_case (Num := binary64) (Col := counting)
              10 small_case) as [s|] eqn:Hrun.
  - exists s. split; [reflexivity|].
    exact (time_is_sum_of_flow_steps 10 small_case s Hrun).
  - vm_compute in Hrun. discriminate.
Defined.

Lemma drag_vs_time_rows_witness :
  ∃ s, FlowPastSphereCase.flow_past_sphere_case (Num := binary64) (Col := counting)
         10 small_case = Some s ∧
       FlowPastSphereCase.drag_vs_time s
       = Some (zip (FlowPastSphereCase.time s) (FlowPastSphereCase.drag_coeffs s)) ∧
       length (FlowPastSphereCase.time s) = length (FlowPastSphereCase.drag_coeffs s) ∧
       (length (FlowPastSphereCase.time s) <= length (FlowPastSphereCase.trace s))%nat.
Proof.
  destruct (FlowPastSphereCase.flow_past_sphere_case (Num := binary64) (Col := counting)
              10 small_case) as [s|] eqn:Hrun.
  - exists s. split; [reflexivity|].
    exact (drag_vs_time_rows 10 small_case s Hrun).
  - vm_compute in Hrun. discriminate.
Defined.

Lemma recorded_times_below_t_end_witness :
  ∃ s, FlowPastSphereCase.flow_past_sphere_case (Num := binary64) (Col := counting)
         10 small_case = Some s ∧
  ∃ c s0,
    FlowPastSphereCase.setup small_case = Some (c, s0) ∧
    Forall (λ x, FlowPastSphereCase.ltb x (FlowPastSphereCase.c_t_end c) = true)
           (FlowPastSphereCase.time s) ∧
    ((length (FlowPastSphereCase.trace s) < 10)%nat ->
     FlowPastSphereCase.ltb (FlowPastSphereCase.t s) (FlowPastSphereCase.c_t_end c) = false).
Proof.
  destruct (FlowPastSphereCase.flow_past_sphere_case (Num := binary64) (Col := counting)
              10 small_case) as [s|] eqn:Hrun.
  - exists s. split; [reflexivity|].
    exact (recorded_times_below_t_end 10 small_case s Hrun).
  - vm_compute in Hrun. discriminate.
Defined.

Lemma first_iteration_records_witness :
  ∃ c s0 s times coeffs,
    FlowPastSphereCase.setup (Num := binary64) (Col := counting) small_case = Some (c, s0) ∧
    FlowPastSphereCase.flow_past_sphere_case 10 small_case = Some s ∧
    FlowPastSphereCase.time s = FlowPastSphereCase.literal 0 :: times ∧
    FlowPastSphereCase.drag_coeffs s
      = FlowPastSphereCase.drag_coeff_of c (FlowPastSphereCase.w s0) :: coeffs.
Proof.
  destruct (FlowPastSphereCase.setup (Num := binary64) (Col := counting) small_case)
    as [[c s0]|] eqn:Hsetup; [|vm_compute in Hsetup; discriminate].
  destruct (FlowPastSphereCase.flow_past_sphere_case (Num := binary64) (Col := counting)
              10 small_case) as [s|] eqn:Hrun; [|vm_compute in Hrun; discriminate].
  destruct (first_iteration_records 9 small_case c s0 s) as (times & coeffs & Ht & Hd).
  - vm_compute. reflexivity.
  - exact Hsetup.
  - vm_compute in Hsetup. injection Hsetup as <- _. vm_compute. reflexivity.
  - exact Hrun.
  - exists c, s0, s, times, coeffs.
    split; [reflexivity|]. split; [reflexivity|]. split; [exact Ht|exact Hd].
Defined.

Lemma zero_division_only_by_grid_or_reynolds_witness :
  FlowPastSphereCase.flow_past_sphere_case (Num := binary64) (Col := counting)
    10 small_case = None ↔
  FlowPastSphereCase.eqb (FlowPastSphereCase.of_Z 4) (FlowPastSphereCase.literal 0) = true ∨
  FlowPastSphereCase.eqb (FlowPastSphereCase.reynolds small_case)
                         (FlowPastSphereCase.literal 0) = true.
Proof.
  apply (zero_division_only_by_grid_or_reynolds 10 small_case 2 2 4).
  - reflexivity.
  - vm_compute. reflexivity.
  - vm_compute. reflexivity.
  - vm_compute. reflexivity.
Defined.

Lemma command_line_never_saves_fields_witness :
  ∃ s, FlowPastSphereCase.simulate_parallelised_flow_past_sphere
         (Num := binary64) (Col := counting) 10 4 16 = Some s ∧
       List.filter FlowPastSphereCase.is_io_save (concat (FlowPastSphereCase.trace s)) = [].
Proof.
  destruct (FlowPastSphereCase.simulate_parallelised_flow_past_sphere
              (Num := binary64) (Col := counting) 10 4 16) as [s|] eqn:Hrun.
  - exists s. split; [reflexivity|].
    exact (command_line_never_saves_fields 10 4 16 s Hrun).
  - vm_compute in Hrun. discriminate.
Defined.

Lemma command_line_zero_division_witness :
  FlowPastSphereCase.simulate_parallelised_flow_past_sphere
    (Num := binary64) (Col := counting) 10 4 0 = None ↔
  FlowPastSphereCase.eqb (FlowPastSphereCase.of_Z 0) (FlowPastSphereCase.literal 0) = true.
Proof.
  apply (command_line_zero_division 10 4 0); vm_compute; reflexivity.
Defined.

End EdgeScenarios.
